(** * StorageRent: rent-due records over an observation window

    A shallow embedding of [src/StorageRent/StorageRent.ts]
    ([calculateMonthlyRent] and its helpers) together with the properties
    its specification states.

    Modelling conventions.
    - A JavaScript [Date] is its time value: an integer number of
      milliseconds since the epoch, read in a local zone with a constant
      zero offset (no daylight saving).  Comparisons of dates are
      comparisons of time values, as in the source.  Invalid dates, the
      range clip at 8.64e15 ms and the legacy remapping of the years 0..99 by
      the [Date] constructor are outside the model.
    - The calendar is the proleptic Gregorian calendar of ECMAScript
      ([DayFromYear], [MakeDay]); months are numbered 0..11.
    - A JavaScript [number] holding money is abstract: the program is written
      over an interface [JSNumber] and instantiated with exact rationals and
      with IEEE 754 binary64 floats.
    - A JavaScript [number] holding a day, a month, a year or the frequency is
      an integer.  [generateRentChangeDates] and [calculateMonthlyRent] take
      it in exact integer arithmetic, which is what binary64 computes while
      the month counter stays within 2^53; [generateRentChangeDates64] and
      [calculateMonthlyRent64] write the binary64 rounding of the month and
      year counters out, return a result only when the loops of the schedule
      generator end, and are proved to return what the former compute for
      every frequency up to 2^57; from 2^57 + 32 on, the source's carry loop
      does not end. *)

From Stdlib Require Import ZArith List Bool Lia Sorted.
From Stdlib Require Import QArith Qcanon Qround Lqa.
From Stdlib Require Import PrimFloat Uint63.
Import ListNotations.

(* A decimal literal stands for the nearest binary64 value, as in JavaScript. *)
Set Warnings "-inexact-float".

Local Open Scope Z_scope.

(** ** The calendar *)

Module Calendar.

Definition msPerDay : Z := 86400000.

(** ECMAScript [DayFromYear]: the day number of 1 January of year [y]. *)
Definition dayFromYear (y : Z) : Z :=
  365 * (y - 1970) + (y - 1969) / 4 - (y - 1901) / 100 + (y - 1601) / 400.

(** ECMAScript [DaysInYear] is 366 exactly for these years. *)
Definition inLeapYear (y : Z) : bool :=
  (y mod 4 =? 0) && (negb (y mod 100 =? 0) || (y mod 400 =? 0)).

(** Days of the year before month [m] (0..11) starts. *)
Definition daysBeforeMonth (leap : bool) (m : Z) : Z :=
  let l := if leap then 1 else 0 in
  match m with
  | 0 => 0
  | 1 => 31
  | 2 => 59 + l
  | 3 => 90 + l
  | 4 => 120 + l
  | 5 => 151 + l
  | 6 => 181 + l
  | 7 => 212 + l
  | 8 => 243 + l
  | 9 => 273 + l
  | 10 => 304 + l
  | _ => 334 + l
  end.

(** A month is named by its index [12 * year + month]; [monthStart mi] is
    the day number of its first day. *)
Definition monthStart (mi : Z) : Z :=
  let y := mi / 12 in
  dayFromYear y + daysBeforeMonth (inLeapYear y) (mi mod 12).

Definition daysInMonth (mi : Z) : Z := monthStart (mi + 1) - monthStart mi.

(** Search upwards for the month that holds day [n]. *)
Fixpoint findMonth (fuel : nat) (mi n : Z) : Z :=
  match fuel with
  | O => mi
  | S fuel' => if n <? monthStart (mi + 1) then mi else findMonth fuel' (mi + 1) n
  end.

(** The Gregorian calendar repeats every 400 years, which are 4800 months
    and 146097 days; day 0 is 1 January 1970. *)
Definition monthOfDay (n : Z) : Z :=
  let q := n / 146097 in
  let r := n mod 146097 in
  findMonth 4800 (12 * 1970 + 4800 * q + r / 31) n.

End Calendar.

Import Calendar.

(** ** Dates *)

Definition Date : Type := Z.

Definition dayOf (t : Date) : Z := t / msPerDay.

(** [new Date(year, month, day)]: local midnight; a month outside 0..11 or
    a day outside the month rolls over into the neighbouring months. *)
Definition newDate (year month day : Z) : Date :=
  msPerDay * (monthStart (12 * year + month) + day - 1).

Definition monthIndex (t : Date) : Z := monthOfDay (dayOf t).
Definition getFullYear (t : Date) : Z := monthIndex t / 12.
Definition getMonth (t : Date) : Z := monthIndex t mod 12.
Definition getDate (t : Date) : Z := dayOf t - monthStart (monthIndex t) + 1.

(** A civil date written year, month (1..12), day, for examples. *)
Definition ymd (y m d : Z) : Date := newDate y (m - 1) d.

(** [Date.getTime()], and [-Infinity] for the absent previous date. *)
Inductive TimeValue : Type :=
  | NegInfinity
  | Millis (t : Z).

Definition timeLtb (a : TimeValue) (b : Z) : bool :=
  match a with
  | NegInfinity => true
  | Millis t => t <? b
  end.

(** ** Numbers *)

(** The operations the program performs on JavaScript numbers that hold
    amounts and rates. [mathRound] is [Math.round]. *)
Class JSNumber (num : Type) : Type := {
  ofZ : Z -> num;
  nadd : num -> num -> num;
  nsub : num -> num -> num;
  nmul : num -> num -> num;
  ndiv : num -> num -> num;
  nltb : num -> num -> bool;
  mathRound : num -> num
}.

(** Exact arithmetic on canonical rationals. *)
Definition QcltbDef (a b : Qc) : bool :=
  match (a ?= b)%Qc with
  | Lt => true
  | _ => false
  end.

#[export] Instance QcNumber : JSNumber Qc := {
  ofZ z := Q2Qc (inject_Z z);
  nadd := Qcplus;
  nsub := Qcminus;
  nmul := Qcmult;
  ndiv := Qcdiv;
  nltb := QcltbDef;
  mathRound q := Q2Qc (inject_Z (Qfloor (q + Q2Qc (1 # 2))%Qc))
}.

(** IEEE 754 binary64, the arithmetic JavaScript runs. *)
Module Float64.

Definition two52 : float := 4503599627370496%float.

(** The number of an integer; exact for the small day counts the program
    converts. *)
Definition ofZ (z : Z) : float :=
  if z <? 0 then PrimFloat.opp (PrimFloat.of_uint63 (Uint63.of_Z (- z)))
  else PrimFloat.of_uint63 (Uint63.of_Z z).

(** Nearest integer, ties to even: exact below [2^52], the identity above. *)
Definition rint (x : float) : float :=
  if PrimFloat.ltb (PrimFloat.abs x) two52 then
    if PrimFloat.ltb x 0%float
    then PrimFloat.add (PrimFloat.sub x two52) two52
    else PrimFloat.sub (PrimFloat.add x two52) two52
  else x.

(** [Math.round]: nearest integer, ties towards positive infinity; a zero
    result keeps the sign of [x]. *)
Definition round (x : float) : float :=
  let r := rint x in
  let r :=
    if PrimFloat.eqb (PrimFloat.sub x r) 0.5%float then PrimFloat.add r 1%float
    else r in
  if PrimFloat.is_zero r && PrimFloat.get_sign x then PrimFloat.neg_zero else r.

End Float64.

#[export] Instance FloatNumber : JSNumber float := {
  ofZ := Float64.ofZ;
  nadd := PrimFloat.add;
  nsub := PrimFloat.sub;
  nmul := PrimFloat.mul;
  ndiv := PrimFloat.div;
  nltb := PrimFloat.ltb;
  mathRound := Float64.round
}.

(** ** Calendar helpers of the source *)

(** [clampToLastDayOfMonth] (lines 262-272). *)
Definition clampToLastDayOfMonth (d : Date) : Date :=
  let year := getFullYear d in
  let month := getMonth d in
  let desiredDay := getDate d in
  let lastDay := getDate (newDate year (month + 1) 0) in
  if desiredDay >? lastDay then newDate year month lastDay else d.

(** [nextMonthSameDueDay] (lines 278-290). *)
Definition nextMonthSameDueDay (currentDate : Date) (dayOfMonth : Z) : Date :=
  let year := getFullYear currentDate in
  let month := getMonth currentDate + 1 in
  let '(year, month) := if month >? 11 then (year + 1, 0) else (year, month) in
  let lastDay := getDate (newDate year (month + 1) 0) in
  let clampedDay := Z.min dayOfMonth lastDay in
  newDate year month clampedDay.

(** [isLeapYear] (lines 292-294); no function of the file calls it. The
    remainder [%] takes the sign of the dividend. *)
Definition isLeapYear (year : Z) : bool :=
  (Z.rem year 4 =? 0) && negb (Z.rem year 100 =? 0).

(** ** The rent-change schedule *)

(** The loop [while (month > 11) { month -= 12; year++; }] of
    [generateRentChangeDates] in exact integer arithmetic, run for at most
    [fuel] turns. It is the source's loop while [month] stays within 2^53,
    where binary64 subtraction of 12 is exact ([carryMonths64_exact]); beyond
    that the source's loop is [carryMonths64] below. *)
Fixpoint carryMonths (fuel : nat) (year month : Z) : Z * Z :=
  match fuel with
  | O => (year, month)
  | S fuel' =>
      if month >? 11 then carryMonths fuel' (year + 1) (month - 12) else (year, month)
  end.

(** Each turn takes 12 from [month], so [month / 12] turns always do. *)
Definition carryFuel (month : Z) : nat := Z.to_nat (month / 12).

(** The loop [while (changeDate <= windowEndDate)] of
    [generateRentChangeDates] (lines 194-204); [changeDate] is
    [new Date(year, month, 1)] at the head of every turn. *)
Fixpoint changeDatesLoop (fuel : nat) (windowEndDate : Date) (frequencyMonths : Z)
    (year month : Z) : list Date :=
  match fuel with
  | O => []
  | S fuel' =>
      let changeDate := newDate year month 1 in
      if changeDate <=? windowEndDate then
        let month := month + frequencyMonths in
        let '(year, month) := carryMonths (carryFuel month) year month in
        changeDate :: changeDatesLoop fuel' windowEndDate frequencyMonths year month
      else []
  end.

(** Every turn moves [changeDate] at least one month forward, so the months
    up to that of [windowEndDate] bound the number of turns. *)
Definition changeDatesFuel (windowEndDate : Date) (year month : Z) : nat :=
  Z.to_nat (monthIndex windowEndDate - (12 * year + month) + 1).

(** [generateRentChangeDates] (lines 173-207). *)
Definition generateRentChangeDates (windowStartDate windowEndDate : Date)
    (frequencyMonths : Z) : list Date :=
  if frequencyMonths <=? 0 then []
  else
    let year := getFullYear windowStartDate in
    let month := getMonth windowStartDate in
    let month := month + frequencyMonths in
    let '(year, month) := carryMonths (carryFuel month) year month in
    changeDatesLoop (changeDatesFuel windowEndDate year month)
      windowEndDate frequencyMonths year month.

(** *** The schedule generator on binary64 counters *)

(** The binary64 value of an integer, written out: integers of magnitude up
    to 2^53 are exact; a larger one goes to the nearest multiple of its unit
    in the last place, a tie to the even significand. (Magnitudes reach no
    overflow here.) *)
Definition round64 (z : Z) : Z :=
  let a := Z.abs z in
  if a <=? 2 ^ 53 then z
  else
    let ulp := 2 ^ (Z.log2 a - 52) in
    let q := a / ulp in
    let r := a mod ulp in
    let q :=
      if 2 * r <? ulp then q
      else if 2 * r >? ulp then q + 1
      else if Z.even q then q else q + 1 in
    Z.sgn z * (q * ulp).

(** The loop [while (month > 11) { month -= 12; year++; }] on binary64
    counters; [None] when it has not ended after [fuel] turns. *)
Fixpoint carryMonths64 (fuel : nat) (year month : Z) : option (Z * Z) :=
  match fuel with
  | O => None
  | S fuel' =>
      if month >? 11
      then carryMonths64 fuel' (round64 (year + 1)) (round64 (month - 12))
      else Some (year, month)
  end.

(** The loop [while (changeDate <= windowEndDate)] on binary64 counters;
    every turn runs the carry loop for at most [carry] turns. Where the
    year counter has left the range of [Date], the source's [changeDate] is
    an invalid date and the test is false; so is it here, the time value of
    such a year being past every [windowEndDate] of that range. *)
Fixpoint changeDatesLoop64 (carry fuel : nat) (windowEndDate : Date)
    (frequencyMonths : Z) (year month : Z) : option (list Date) :=
  match fuel with
  | O => None
  | S fuel' =>
      let changeDate := newDate year month 1 in
      if changeDate <=? windowEndDate then
        let month := round64 (month + frequencyMonths) in
        match carryMonths64 carry year month with
        | None => None
        | Some (year, month) =>
            match changeDatesLoop64 carry fuel' windowEndDate frequencyMonths
                    year month with
            | None => None
            | Some dates => Some (changeDate :: dates)
            end
        end
      else Some []
  end.

(** [generateRentChangeDates] (lines 173-207) on binary64 counters: the
    dates it returns, or [None] when one of its loops has not ended after
    [fuel] turns. *)
Definition generateRentChangeDates64 (fuel : nat)
    (windowStartDate windowEndDate : Date) (frequencyMonths : Z)
    : option (list Date) :=
  if frequencyMonths <=? 0 then Some []
  else
    let year := getFullYear windowStartDate in
    let month := getMonth windowStartDate in
    let month := round64 (month + frequencyMonths) in
    match carryMonths64 fuel year month with
    | None => None
    | Some (year, month) =>
        changeDatesLoop64 fuel fuel windowEndDate frequencyMonths year month
    end.

(** Turns that let both loops of the schedule generator end for a
    frequency [f] of at most 2^57: every turn of the carry loop takes at
    least 4 from the month counter, and the outer loop makes at most one
    turn for each month up to that of the window end. *)
Definition scheduleFuel (windowStartDate windowEndDate : Date) (f : Z) : nat :=
  Z.to_nat (Z.max (f / 4 + 9)
              (Z.max 0 (monthIndex windowEndDate - monthIndex windowStartDate) + 2)).

(** 2^57 + 32, the binary64 integer after 2^57: the least frequency at
    which the month counter stalls. *)
Definition stallThreshold : Z := 144115188075855904.

(** 2^60, a frequency at which the binary64 month counter stalls. *)
Definition stallMonth : Z := 1152921504606846976.

(** ** The rent computation *)

Section Rent.

Context {num : Type} `{JSNumber num}.

Record MonthlyRentRecord : Type := {
  vacancy : bool;
  rentAmount : num;
  rentDueDate : Date
}.

(** [calculateNewMonthlyRent] (lines 248-250). *)
Definition calculateNewMonthlyRent (baseRent rentChangeRate : num) : num :=
  nmul baseRent (nadd (ofZ 1) rentChangeRate).

(** [roundToTwo] (lines 253-255). *)
Definition roundToTwo (n : num) : num :=
  ndiv (mathRound (nmul n (ofZ 100))) (ofZ 100).

(** [applyAllApplicableRentChanges] (lines 216-245): the [for] loop over
    [rentChangeDates], threading [currentRent]. *)
Fixpoint applyChangesLoop (currentRent rentChangeRate : num)
    (rentChangeDates : list Date) (prevTime : TimeValue) (nextTime : Z)
    (leaseStartDate : Date) : num :=
  match rentChangeDates with
  | [] => currentRent
  | cd :: rest =>
      let cdt := cd in
      let currentRent :=
        if timeLtb prevTime cdt && (cdt <=? nextTime) then
          let occupantIsRenting := leaseStartDate <=? cd in
          if occupantIsRenting && nltb (ofZ 0) rentChangeRate then
            calculateNewMonthlyRent currentRent rentChangeRate
          else if negb occupantIsRenting && nltb rentChangeRate (ofZ 0) then
            calculateNewMonthlyRent currentRent rentChangeRate
          else currentRent
        else currentRent in
      applyChangesLoop currentRent rentChangeRate rest prevTime nextTime leaseStartDate
  end.

Definition applyAllApplicableRentChanges (currentRent rentChangeRate : num)
    (rentChangeDates : list Date) (previousDueDate : option Date)
    (upcomingDueDate leaseStartDate : Date) : num :=
  let prevTime :=
    match previousDueDate with
    | Some p => Millis p
    | None => NegInfinity
    end in
  let nextTime := upcomingDueDate in
  applyChangesLoop currentRent rentChangeRate rentChangeDates prevTime nextTime
    leaseStartDate.

(** The first payment amount and the second payment date (lines 89-117). *)
Definition firstPayment (occupantMonthlyRentAtFirstPayment : num)
    (leaseStartDate : Date) (startDay dueDay : Z) : num * Date :=
  if startDay <? dueDay then
    let fraction := ndiv (ofZ (dueDay - startDay)) (ofZ 30) in
    let firstPaymentAmount := nmul occupantMonthlyRentAtFirstPayment fraction in
    let secondPaymentDate :=
      newDate (getFullYear leaseStartDate) (getMonth leaseStartDate) dueDay in
    (firstPaymentAmount, clampToLastDayOfMonth secondPaymentDate)
  else if startDay =? dueDay then
    (occupantMonthlyRentAtFirstPayment, nextMonthSameDueDay leaseStartDate dueDay)
  else
    let fraction := nsub (ofZ 1) (ndiv (ofZ (startDay - dueDay)) (ofZ 30)) in
    let firstPaymentAmount := nmul occupantMonthlyRentAtFirstPayment fraction in
    (firstPaymentAmount, nextMonthSameDueDay leaseStartDate dueDay).

(** The variables the recurring loop (lines 131-162) updates. *)
Record LoopState : Type := {
  results : list MonthlyRentRecord;
  previousDueDate : Date;
  currentDueDate : Date;
  currentMonthlyRent : num;
  iterationSafety : Z
}.

Section Loop.

Variables (leaseStartDate windowStartDate windowEndDate : Date).
Variables (dueDay : Z) (rentChangeRate : num) (rentChangeDates : list Date).

(** One turn of the loop past its [break] test (lines 140-161). *)
Definition loopBody (st : LoopState) : LoopState :=
  let currentMonthlyRent :=
    applyAllApplicableRentChanges (currentMonthlyRent st) rentChangeRate
      rentChangeDates (Some (previousDueDate st)) (currentDueDate st)
      leaseStartDate in
  let results :=
    if (windowStartDate <=? currentDueDate st) && (currentDueDate st <=? windowEndDate)
    then results st ++
         [{| vacancy := false;
             rentAmount := roundToTwo currentMonthlyRent;
             rentDueDate := currentDueDate st |}]
    else results st in
  {| results := results;
     previousDueDate := currentDueDate st;
     currentDueDate := nextMonthSameDueDay (currentDueDate st) dueDay;
     currentMonthlyRent := currentMonthlyRent;
     iterationSafety := iterationSafety st + 1 |}.

(** [while (iterationSafety < 500)]: [remaining] is [500 - iterationSafety]. *)
Fixpoint rentLoop (remaining : nat) (st : LoopState) : LoopState :=
  match remaining with
  | O => st
  | S remaining' =>
      if currentDueDate st >? windowEndDate then st
      else rentLoop remaining' (loopBody st)
  end.

End Loop.

(** [calculateMonthlyRent] (lines 28-165). *)
Definition calculateMonthlyRent (baseMonthlyRent : num)
    (leaseStartDate windowStartDate windowEndDate : Date)
    (dayOfMonthRentDue rentRateChangeFrequency : Z) (rentChangeRate : num)
    : list MonthlyRentRecord :=
  let results : list MonthlyRentRecord := [] in
  if windowStartDate >? windowEndDate then results
  else
    let rentChangeDates :=
      generateRentChangeDates windowStartDate windowEndDate rentRateChangeFrequency in
    let currentMonthlyRent := baseMonthlyRent in
    if leaseStartDate >? windowEndDate then results
    else
      let firstPaymentDate := leaseStartDate in
      let startDay := getDate leaseStartDate in
      let dueDay := dayOfMonthRentDue in
      let currentMonthlyRent :=
        applyAllApplicableRentChanges currentMonthlyRent rentChangeRate
          rentChangeDates None firstPaymentDate leaseStartDate in
      let occupantMonthlyRentAtFirstPayment := currentMonthlyRent in
      let '(firstPaymentAmount, secondPaymentDate) :=
        firstPayment occupantMonthlyRentAtFirstPayment leaseStartDate startDay dueDay in
      let results :=
        if (windowStartDate <=? firstPaymentDate) && (firstPaymentDate <=? windowEndDate)
        then results ++
             [{| vacancy := false;
                 rentAmount := roundToTwo firstPaymentAmount;
                 rentDueDate := firstPaymentDate |}]
        else results in
      let '(Build_LoopState results _ _ _ _) :=
        rentLoop leaseStartDate windowStartDate windowEndDate dueDay rentChangeRate
          rentChangeDates 500
          {| results := results;
             previousDueDate := firstPaymentDate;
             currentDueDate := secondPaymentDate;
             currentMonthlyRent := currentMonthlyRent;
             iterationSafety := 0 |} in
      results.

(** [calculateMonthlyRent] (lines 28-165) with the schedule generator on
    binary64 counters: the records it returns, or [None] when a loop of the
    schedule generator has not ended after [fuel] turns. *)
Definition calculateMonthlyRent64 (fuel : nat) (baseMonthlyRent : num)
    (leaseStartDate windowStartDate windowEndDate : Date)
    (dayOfMonthRentDue rentRateChangeFrequency : Z) (rentChangeRate : num)
    : option (list MonthlyRentRecord) :=
  let results : list MonthlyRentRecord := [] in
  if windowStartDate >? windowEndDate then Some results
  else
    match generateRentChangeDates64 fuel windowStartDate windowEndDate
            rentRateChangeFrequency with
    | None => None
    | Some rentChangeDates =>
        let currentMonthlyRent := baseMonthlyRent in
        if leaseStartDate >? windowEndDate then Some results
        else
          let firstPaymentDate := leaseStartDate in
          let startDay := getDate leaseStartDate in
          let dueDay := dayOfMonthRentDue in
          let currentMonthlyRent :=
            applyAllApplicableRentChanges currentMonthlyRent rentChangeRate
              rentChangeDates None firstPaymentDate leaseStartDate in
          let occupantMonthlyRentAtFirstPayment := currentMonthlyRent in
          let '(firstPaymentAmount, secondPaymentDate) :=
            firstPayment occupantMonthlyRentAtFirstPayment leaseStartDate startDay
              dueDay in
          let results :=
            if (windowStartDate <=? firstPaymentDate) &&
               (firstPaymentDate <=? windowEndDate)
            then results ++
                 [{| vacancy := false;
                     rentAmount := roundToTwo firstPaymentAmount;
                     rentDueDate := firstPaymentDate |}]
            else results in
          let '(Build_LoopState results _ _ _ _) :=
            rentLoop leaseStartDate windowStartDate windowEndDate dueDay
              rentChangeRate rentChangeDates 500
              {| results := results;
                 previousDueDate := firstPaymentDate;
                 currentDueDate := secondPaymentDate;
                 currentMonthlyRent := currentMonthlyRent;
                 iterationSafety := 0 |} in
          Some results
    end.

End Rent.

Arguments MonthlyRentRecord num : clear implicits.
Arguments LoopState num : clear implicits.



(** ** Reference definitions

    What the specification says in its own terms, to compare the program
    with. *)

(** The due day [dueDay] in the month of index [mi], clamped to the
    month's last day. *)
Definition dueDateIn (mi dueDay : Z) : Date :=
  newDate 0 mi (Z.min dueDay (daysInMonth mi)).

(** The [k]-th candidate change date: the first of the month that is
    [k * frequencyMonths] months after the month of [windowStartDate]. *)
Definition changeDateAt (windowStartDate : Date) (frequencyMonths k : Z) : Date :=
  newDate (getFullYear windowStartDate)
    (getMonth windowStartDate + k * frequencyMonths) 1.

Section RentReference.

Context {num : Type} `{JSNumber num}.

(** [cd] lies in the interval [(previousDate, upcomingDate]]; an absent
    previous date stands for minus infinity. *)
Definition inInterval (previousDate : option Date) (upcomingDate cd : Date) : bool :=
  match previousDate with
  | Some p => (p <? cd) && (cd <=? upcomingDate)
  | None => cd <=? upcomingDate
  end.

(** A change at [cd] moves the rent: the unit is occupied and the rate is
    positive, or it is vacant and the rate is negative. *)
Definition rentChangeApplies (leaseStartDate : Date) (rentChangeRate : num)
    (cd : Date) : bool :=
  ((leaseStartDate <=? cd) && nltb (ofZ 0) rentChangeRate) ||
  ((cd <? leaseStartDate) && nltb rentChangeRate (ofZ 0)).

(** One change: the rent times [1 + rentChangeRate]. *)
Definition changeRent (rentChangeRate rent : num) : num :=
  nmul rent (nadd (ofZ 1) rentChangeRate).

(** The changes of the schedule that apply and are dated on or before [d]. *)
Definition changesUpTo (leaseStartDate : Date) (rentChangeRate : num)
    (schedule : list Date) (d : Date) : list Date :=
  filter (fun cd => (cd <=? d) && rentChangeApplies leaseStartDate rentChangeRate cd)
    schedule.

(** The unrounded rent level at [d]: the base rent changed once for each
    such change. *)
Definition rentLevelAt (baseMonthlyRent : num) (leaseStartDate : Date)
    (rentChangeRate : num) (schedule : list Date) (d : Date) : num :=
  Nat.iter (length (changesUpTo leaseStartDate rentChangeRate schedule d))
    (changeRent rentChangeRate) baseMonthlyRent.

Definition inWindow (windowStartDate windowEndDate : Date)
    (r : MonthlyRentRecord num) : Prop :=
  windowStartDate <= rentDueDate r <= windowEndDate.

(** The state in which [calculateMonthlyRent] enters its recurring loop
    (line 134), once both guards have let the call through. *)
Definition startState (baseMonthlyRent : num)
    (leaseStartDate windowStartDate windowEndDate : Date)
    (dayOfMonthRentDue rentRateChangeFrequency : Z) (rentChangeRate : num)
    : LoopState num :=
  let rentChangeDates :=
    generateRentChangeDates windowStartDate windowEndDate rentRateChangeFrequency in
  let rent :=
    applyAllApplicableRentChanges baseMonthlyRent rentChangeRate rentChangeDates
      None leaseStartDate leaseStartDate in
  let first := firstPayment rent leaseStartDate (getDate leaseStartDate) dayOfMonthRentDue in
  {| results :=
       if (windowStartDate <=? leaseStartDate) && (leaseStartDate <=? windowEndDate)
       then [{| vacancy := false;
                rentAmount := roundToTwo (fst first);
                rentDueDate := leaseStartDate |}]
       else [];
     previousDueDate := leaseStartDate;
     currentDueDate := snd first;
     currentMonthlyRent := rent;
     iterationSafety := 0 |}.

(** The first-payment record as the specification describes it: the rent
    level at the lease start, prorated, then rounded to two decimals:
    [Math.round] of the hundredfold, divided by 100. *)
Definition firstPaymentRecord (baseMonthlyRent : num)
    (leaseStartDate windowStartDate windowEndDate : Date)
    (dayOfMonthRentDue rentRateChangeFrequency : Z) (rentChangeRate : num)
    : MonthlyRentRecord num :=
  let schedule :=
    generateRentChangeDates windowStartDate windowEndDate rentRateChangeFrequency in
  let level :=
    rentLevelAt baseMonthlyRent leaseStartDate rentChangeRate schedule leaseStartDate in
  {| vacancy := false;
     rentAmount :=
       ndiv
         (mathRound
            (nmul
               (fst (firstPayment level leaseStartDate (getDate leaseStartDate)
                       dayOfMonthRentDue))
               (ofZ 100)))
         (ofZ 100);
     rentDueDate := leaseStartDate |}.

End RentReference.

(** Records for the scenarios, and their comparison in exact arithmetic
    (two canonical rationals are equal when their fractions are). *)
Definition record {num : Type} (amount : num) (due : Date) : MonthlyRentRecord num :=
  {| vacancy := false; rentAmount := amount; rentDueDate := due |}.

Definition sameRecord (a b : MonthlyRentRecord Qc) : bool :=
  Bool.eqb (vacancy a) (vacancy b) &&
  Qeq_bool (rentAmount a) (rentAmount b) &&
  (rentDueDate a =? rentDueDate b).

Fixpoint sameRecords (l1 l2 : list (MonthlyRentRecord Qc)) : bool :=
  match l1, l2 with
  | [], [] => true
  | a :: l1', b :: l2' => sameRecord a b && sameRecords l1' l2'
  | _, _ => false
  end.

(** ** Facts about the calendar *)

Module CalendarFacts.

Lemma dayFromYear_succ y :
  dayFromYear (y + 1) = dayFromYear y + 365 + (if inLeapYear y then 1 else 0).
Proof.
  unfold dayFromYear, inLeapYear.
  destruct (Z.eqb_spec (y mod 4) 0), (Z.eqb_spec (y mod 100) 0),
    (Z.eqb_spec (y mod 400) 0); cbn [negb andb orb];
    Z.div_mod_to_equations; lia.
Qed.

Lemma monthStart_succ mi :
  monthStart (mi + 1) = monthStart mi + daysInMonth mi.
Proof. unfold daysInMonth. lia. Qed.

Lemma daysInMonth_bounds mi : 28 <= daysInMonth mi <= 31.
Proof.
  unfold daysInMonth, monthStart.
  assert (Hm : 0 <= mi mod 12 < 12) by (apply Z.mod_pos_bound; lia).
  destruct (Z.eq_dec (mi mod 12) 11) as [E|E].
  - assert (H1 : (mi + 1) / 12 = mi / 12 + 1) by (Z.div_mod_to_equations; lia).
    assert (H2 : (mi + 1) mod 12 = 0) by (Z.div_mod_to_equations; lia).
    rewrite H1, H2, E, dayFromYear_succ.
    destruct (inLeapYear (mi / 12)), (inLeapYear (mi / 12 + 1)); cbn; lia.
  - assert (H1 : (mi + 1) / 12 = mi / 12) by (Z.div_mod_to_equations; lia).
    assert (H2 : (mi + 1) mod 12 = mi mod 12 + 1) by (Z.div_mod_to_equations; lia).
    rewrite H1, H2.
    assert (Hc : mi mod 12 = 0 \/ mi mod 12 = 1 \/ mi mod 12 = 2 \/ mi mod 12 = 3 \/
                 mi mod 12 = 4 \/ mi mod 12 = 5 \/ mi mod 12 = 6 \/ mi mod 12 = 7 \/
                 mi mod 12 = 8 \/ mi mod 12 = 9 \/ mi mod 12 = 10) by lia.
    destruct (inLeapYear (mi / 12));
      repeat (destruct Hc as [Hc|Hc]; [rewrite Hc; cbn; lia|]); rewrite Hc; cbn; lia.
Qed.

Lemma monthStart_step_lt mi : monthStart mi < monthStart (mi + 1).
Proof. pose proof (daysInMonth_bounds mi). unfold daysInMonth in *. lia. Qed.

(** Over [k] months the calendar advances between [28 * k] and [31 * k] days. *)
Lemma monthStart_add_nat (k : nat) mi :
  monthStart mi + 28 * Z.of_nat k <= monthStart (mi + Z.of_nat k)
  <= monthStart mi + 31 * Z.of_nat k.
Proof.
  induction k as [|k IH].
  - replace (mi + Z.of_nat 0) with mi by lia. lia.
  - replace (mi + Z.of_nat (S k)) with (mi + Z.of_nat k + 1) by lia.
    pose proof (daysInMonth_bounds (mi + Z.of_nat k)) as Hb.
    unfold daysInMonth in Hb. lia.
Qed.

Lemma monthStart_add mi k :
  0 <= k ->
  monthStart mi + 28 * k <= monthStart (mi + k) <= monthStart mi + 31 * k.
Proof.
  intros Hk. pose proof (monthStart_add_nat (Z.to_nat k) mi) as H.
  rewrite Z2Nat.id in H by lia. exact H.
Qed.


Lemma monthStart_le a b : a <= b -> monthStart a <= monthStart b.
Proof.
  intros Hab. pose proof (monthStart_add a (b - a)) as H.
  replace (a + (b - a)) with b in H by lia. lia.
Qed.

Lemma monthStart_lt_inv a b : monthStart a < monthStart b -> a < b.
Proof.
  intros H. destruct (Z_lt_le_dec a b) as [|Hle]; [assumption|].
  apply monthStart_le in Hle. lia.
Qed.

(** A day lies in exactly one month. *)
Lemma month_unique a b n :
  monthStart a <= n < monthStart (a + 1) ->
  monthStart b <= n < monthStart (b + 1) -> a = b.
Proof.
  intros Ha Hb.
  assert (a < b + 1) by (apply monthStart_lt_inv; lia).
  assert (b < a + 1) by (apply monthStart_lt_inv; lia).
  lia.
Qed.

Lemma dayFromYear_period y k : dayFromYear (y + 400 * k) = dayFromYear y + 146097 * k.
Proof. unfold dayFromYear. Z.div_mod_to_equations. lia. Qed.

Lemma inLeapYear_period y k : inLeapYear (y + 400 * k) = inLeapYear y.
Proof.
  unfold inLeapYear.
  replace ((y + 400 * k) mod 4) with (y mod 4) by (Z.div_mod_to_equations; lia).
  replace ((y + 400 * k) mod 100) with (y mod 100) by (Z.div_mod_to_equations; lia).
  replace ((y + 400 * k) mod 400) with (y mod 400) by (Z.div_mod_to_equations; lia).
  reflexivity.
Qed.

Lemma monthStart_period mi k : monthStart (mi + 4800 * k) = monthStart mi + 146097 * k.
Proof.
  unfold monthStart.
  replace ((mi + 4800 * k) / 12) with (mi / 12 + 400 * k) by (Z.div_mod_to_equations; lia).
  replace ((mi + 4800 * k) mod 12) with (mi mod 12) by (Z.div_mod_to_equations; lia).
  rewrite dayFromYear_period, inLeapYear_period. lia.
Qed.

Lemma monthStart_epoch : monthStart (12 * 1970) = 0.
Proof. reflexivity. Qed.

Lemma findMonth_spec fuel : forall mi n,
  monthStart mi <= n < monthStart (mi + Z.of_nat fuel) ->
  monthStart (findMonth fuel mi n) <= n < monthStart (findMonth fuel mi n + 1).
Proof.
  induction fuel as [|fuel IH]; intros mi n H.
  - replace (mi + Z.of_nat 0) with mi in H by lia. lia.
  - cbn [findMonth]. destruct (Z.ltb_spec n (monthStart (mi + 1))) as [Hlt|Hge].
    + lia.
    + apply IH. replace (mi + 1 + Z.of_nat fuel) with (mi + Z.of_nat (S fuel)) by lia. lia.
Qed.

Lemma monthOfDay_spec n :
  monthStart (monthOfDay n) <= n < monthStart (monthOfDay n + 1).
Proof.
  unfold monthOfDay. apply findMonth_spec.
  set (q := n / 146097). set (r := n mod 146097).
  assert (Hn : n = 146097 * q + r) by (subst q r; apply Z.div_mod; lia).
  assert (Hr : 0 <= r < 146097) by (subst r; apply Z.mod_pos_bound; lia).
  assert (H0 : monthStart (12 * 1970 + 4800 * q) = 146097 * q)
    by (rewrite monthStart_period, monthStart_epoch; lia).
  assert (Hk : 0 <= r / 31) by (apply Z.div_pos; lia).
  pose proof (monthStart_add (12 * 1970 + 4800 * q) (r / 31) Hk) as Hlo.
  assert (H31 : 31 * (r / 31) <= r) by (apply Z.mul_div_le; lia).
  split; [lia|].
  assert (Hup : monthStart (12 * 1970 + 4800 * q + 4800) = 146097 * q + 146097).
  { replace (12 * 1970 + 4800 * q + 4800) with (12 * 1970 + 4800 * (q + 1)) by lia.
    rewrite monthStart_period, monthStart_epoch. lia. }
  assert (Hle : 12 * 1970 + 4800 * q + 4800 <= 12 * 1970 + 4800 * q + r / 31 + Z.of_nat 4800)
    by lia.
  apply monthStart_le in Hle. lia.
Qed.

Lemma monthOfDay_unique mi n :
  monthStart mi <= n < monthStart (mi + 1) -> monthOfDay n = mi.
Proof. intros H. eapply month_unique; [apply monthOfDay_spec | exact H]. Qed.

End CalendarFacts.

Import CalendarFacts.

(** ** Facts about dates *)

Module DateFacts.

Lemma msPerDay_pos : 0 < msPerDay.
Proof. reflexivity. Qed.

Lemma dayOf_bounds t : msPerDay * dayOf t <= t < msPerDay * (dayOf t + 1).
Proof. unfold dayOf, msPerDay. Z.div_mod_to_equations. lia. Qed.

Lemma dayOf_newDate y m d : dayOf (newDate y m d) = monthStart (12 * y + m) + d - 1.
Proof.
  unfold dayOf, newDate. rewrite Z.mul_comm. apply Z.div_mul.
  pose proof msPerDay_pos. lia.
Qed.

Lemma newDate_index y m d : newDate y m d = newDate 0 (12 * y + m) d.
Proof. unfold newDate. f_equal. Qed.

Lemma monthIndex_spec t :
  monthStart (monthIndex t) <= dayOf t < monthStart (monthIndex t + 1).
Proof. apply monthOfDay_spec. Qed.

Lemma year_month_index t : 12 * getFullYear t + getMonth t = monthIndex t.
Proof. unfold getFullYear, getMonth. symmetry. apply Z.div_mod. lia. Qed.

Lemma getMonth_bounds t : 0 <= getMonth t <= 11.
Proof. unfold getMonth. pose proof (Z.mod_pos_bound (monthIndex t) 12). lia. Qed.

Lemma getDate_bounds t : 1 <= getDate t <= daysInMonth (monthIndex t).
Proof. pose proof (monthIndex_spec t). unfold getDate, daysInMonth. lia. Qed.

(** Reading back a date built from a day that exists in its month. *)
Lemma monthIndex_newDate y m d :
  1 <= d <= daysInMonth (12 * y + m) -> monthIndex (newDate y m d) = 12 * y + m.
Proof.
  intros Hd. unfold monthIndex. apply monthOfDay_unique.
  rewrite dayOf_newDate. unfold daysInMonth in Hd. lia.
Qed.

Lemma getDate_newDate y m d :
  1 <= d <= daysInMonth (12 * y + m) -> getDate (newDate y m d) = d.
Proof.
  intros Hd. unfold getDate. rewrite monthIndex_newDate by assumption.
  rewrite dayOf_newDate. lia.
Qed.

(** [new Date(year, month + 1, 0).getDate()] is the length of the month. *)
Lemma lastDay_daysInMonth y m :
  getDate (newDate y (m + 1) 0) = daysInMonth (12 * y + m).
Proof.
  pose proof (daysInMonth_bounds (12 * y + m)) as Hb.
  assert (Hi : monthIndex (newDate y (m + 1) 0) = 12 * y + m).
  { unfold monthIndex. apply monthOfDay_unique. rewrite dayOf_newDate.
    replace (12 * y + (m + 1)) with (12 * y + m + 1) by lia.
    unfold daysInMonth in Hb. lia. }
  unfold getDate. rewrite Hi, dayOf_newDate.
  replace (12 * y + (m + 1)) with (12 * y + m + 1) by lia.
  unfold daysInMonth. lia.
Qed.

(** A first of the month is on or before [t] exactly when its month is. *)
Lemma firstOfMonth_le mi t : newDate 0 mi 1 <= t <-> mi <= monthIndex t.
Proof.
  pose proof (dayOf_bounds t) as Ht. pose proof (monthIndex_spec t) as Hs.
  pose proof msPerDay_pos as Hp.
  unfold newDate. replace (12 * 0 + mi) with mi by lia.
  replace (monthStart mi + 1 - 1) with (monthStart mi) by lia.
  split; intros H.
  - assert (monthStart mi <= dayOf t) by nia.
    assert (mi < monthIndex t + 1) by (apply monthStart_lt_inv; lia). lia.
  - apply monthStart_le in H. nia.
Qed.


(** The source's clamp never changes its argument: the day of a date never
    exceeds the length of the month the date itself is in. *)
Lemma clampToLastDayOfMonth_id d : clampToLastDayOfMonth d = d.
Proof.
  unfold clampToLastDayOfMonth.
  rewrite lastDay_daysInMonth, year_month_index.
  pose proof (getDate_bounds d) as Hb.
  destruct (Z.gtb_spec (getDate d) (daysInMonth (monthIndex d))); [lia|reflexivity].
Qed.

Lemma nextMonthSameDueDay_dueDateIn d k :
  nextMonthSameDueDay d k = dueDateIn (monthIndex d + 1) k.
Proof.
  unfold nextMonthSameDueDay, dueDateIn.
  pose proof (year_month_index d) as Hi. pose proof (getMonth_bounds d) as Hm.
  destruct (Z.gtb_spec (getMonth d + 1) 11) as [Hgt|Hle].
  - rewrite lastDay_daysInMonth, (newDate_index (getFullYear d + 1) 0).
    replace (12 * (getFullYear d + 1) + 0) with (monthIndex d + 1) by lia.
    reflexivity.
  - rewrite lastDay_daysInMonth, (newDate_index (getFullYear d) (getMonth d + 1)).
    replace (12 * getFullYear d + (getMonth d + 1)) with (monthIndex d + 1) by lia.
    reflexivity.
Qed.

Lemma dueDateIn_fields mi k :
  1 <= k ->
  monthIndex (dueDateIn mi k) = mi /\
  getDate (dueDateIn mi k) = Z.min k (daysInMonth mi) /\
  dueDateIn mi k mod msPerDay = 0.
Proof.
  intros Hk. pose proof (daysInMonth_bounds mi) as Hb. unfold dueDateIn.
  assert (Hd : 1 <= Z.min k (daysInMonth mi) <= daysInMonth (12 * 0 + mi))
    by (replace (12 * 0 + mi) with mi by lia; lia).
  split; [|split].
  - rewrite monthIndex_newDate by exact Hd. lia.
  - apply getDate_newDate. exact Hd.
  - unfold newDate. rewrite Z.mul_comm. apply Z.mod_mul. pose proof msPerDay_pos. lia.
Qed.

(** Any date of a month is before every day of a later month. *)
Lemma before_later_month t mi k :
  monthIndex t < mi -> 1 <= k -> t < newDate 0 mi k.
Proof.
  intros Hlt Hk. pose proof (dayOf_bounds t) as Ht.
  pose proof (monthIndex_spec t) as Hs. pose proof msPerDay_pos as Hp.
  assert (Hm : monthStart (monthIndex t + 1) <= monthStart mi)
    by (apply monthStart_le; lia).
  unfold newDate. replace (12 * 0 + mi) with mi by lia. nia.
Qed.

Lemma nextMonthSameDueDay_gt d k : 1 <= k -> d < nextMonthSameDueDay d k.
Proof.
  intros Hk. rewrite nextMonthSameDueDay_dueDateIn. unfold dueDateIn.
  pose proof (daysInMonth_bounds (monthIndex d + 1)).
  apply before_later_month; lia.
Qed.

(** A later day of the same month is after any time of an earlier day. *)
Lemma same_month_later_day t k :
  getDate t < k -> t < newDate (getFullYear t) (getMonth t) k.
Proof.
  intros Hk. pose proof (dayOf_bounds t) as Ht. pose proof msPerDay_pos as Hp.
  unfold newDate. rewrite year_month_index. unfold getDate in Hk. nia.
Qed.

End DateFacts.

Import DateFacts.

(** ** Facts about the schedule *)

Module ScheduleFacts.

Lemma carryMonths_index fuel : forall year month,
  let '(y, m) := carryMonths fuel year month in 12 * y + m = 12 * year + month.
Proof.
  induction fuel as [|fuel IH]; intros year month; cbn [carryMonths].
  - reflexivity.
  - destruct (month >? 11).
    + specialize (IH (year + 1) (month - 12)).
      destruct (carryMonths fuel (year + 1) (month - 12)). lia.
    + reflexivity.
Qed.

Lemma carryMonths_range fuel : forall year month,
  0 <= month -> month / 12 <= Z.of_nat fuel ->
  0 <= snd (carryMonths fuel year month) <= 11.
Proof.
  induction fuel as [|fuel IH]; intros year month H0 Hf; cbn [carryMonths].
  - cbn [snd]. Z.div_mod_to_equations. lia.
  - destruct (Z.gtb_spec month 11) as [Hgt|Hle].
    + apply IH; [lia|]. Z.div_mod_to_equations. lia.
    + cbn [snd]. lia.
Qed.

(** The carry loop ends on the year and month that name the same month. *)
Lemma carryMonths_spec year month :
  0 <= month ->
  carryMonths (carryFuel month) year month = (year + month / 12, month mod 12).
Proof.
  intros H0.
  pose proof (carryMonths_index (carryFuel month) year month) as Hi.
  pose proof (carryMonths_range (carryFuel month) year month H0) as Hr.
  unfold carryFuel in *. rewrite Z2Nat.id in Hr by (apply Z.div_pos; lia).
  specialize (Hr (Z.le_refl _)).
  destruct (carryMonths (Z.to_nat (month / 12)) year month) as [y m].
  cbn [snd] in Hr. f_equal; Z.div_mod_to_equations; lia.
Qed.

Section Loop.

Variables (windowEndDate : Date) (f : Z).
Hypothesis f_pos : 0 < f.

(** Index form of one turn of the schedule loop. *)
Lemma changeDatesLoop_step fuel year month :
  0 <= month <= 11 ->
  changeDatesLoop (S fuel) windowEndDate f year month =
  if newDate 0 (12 * year + month) 1 <=? windowEndDate then
    newDate 0 (12 * year + month) 1 ::
    changeDatesLoop fuel windowEndDate f
      (year + (month + f) / 12) ((month + f) mod 12)
  else [].
Proof.
  intros Hm. cbn [changeDatesLoop]. rewrite <- newDate_index.
  rewrite carryMonths_spec by lia. reflexivity.
Qed.

(** With the fuel the program gives it, the loop lists exactly the candidate
    dates that are on or before [windowEndDate]. *)
Lemma changeDatesLoop_In fuel : forall year month d,
  0 <= month <= 11 ->
  monthIndex windowEndDate - (12 * year + month) + 1 <= Z.of_nat fuel ->
  (In d (changeDatesLoop fuel windowEndDate f year month) <->
   exists k, 0 <= k /\ d = newDate 0 (12 * year + month + k * f) 1 /\
             d <= windowEndDate).
Proof.
  induction fuel as [|fuel IH]; intros year month d Hm Hf.
  - cbn [changeDatesLoop In]. split; [tauto|].
    intros (k & Hk & -> & Hle). apply firstOfMonth_le in Hle. nia.
  - rewrite changeDatesLoop_step by assumption.
    assert (Hidx : 12 * (year + (month + f) / 12) + (month + f) mod 12 =
                   12 * year + month + f) by (Z.div_mod_to_equations; lia).
    assert (Hrg : 0 <= (month + f) mod 12 <= 11)
      by (pose proof (Z.mod_pos_bound (month + f) 12); lia).
    destruct (Z.leb_spec (newDate 0 (12 * year + month) 1) windowEndDate) as [Hle|Hgt].
    + cbn [In]. rewrite IH; [|exact Hrg|lia]. rewrite Hidx. split.
      * intros [<-|(k & Hk & -> & Hk')].
        -- exists 0. repeat split; [lia| f_equal; lia | exact Hle].
        -- exists (k + 1). repeat split; [lia| f_equal; lia | exact Hk'].
      * intros (k & Hk & -> & Hk').
        destruct (Z.eq_dec k 0) as [->|Hne].
        -- left. f_equal. lia.
        -- right. exists (k - 1). repeat split; [lia| f_equal; lia | exact Hk'].
    + cbn [In]. split; [tauto|]. intros (k & Hk & -> & Hle).
      apply firstOfMonth_le in Hle.
      assert (~ 12 * year + month <= monthIndex windowEndDate)
        by (rewrite <- firstOfMonth_le; lia).
      nia.
Qed.

(** Fuel beyond what the program gives the loop changes nothing: the loop
    always ends by its own test. *)
Lemma changeDatesLoop_fuel fuel : forall fuel' year month,
  0 <= month <= 11 ->
  monthIndex windowEndDate - (12 * year + month) + 1 <= Z.of_nat fuel ->
  monthIndex windowEndDate - (12 * year + month) + 1 <= Z.of_nat fuel' ->
  changeDatesLoop fuel windowEndDate f year month =
  changeDatesLoop fuel' windowEndDate f year month.
Proof.
  assert (Hstop : forall n year month, 0 <= month <= 11 ->
            monthIndex windowEndDate - (12 * year + month) + 1 <= 0 ->
            changeDatesLoop n windowEndDate f year month = []).
  { intros [|n] year month Hm Hle; [reflexivity|].
    rewrite changeDatesLoop_step by assumption.
    destruct (Z.leb_spec (newDate 0 (12 * year + month) 1) windowEndDate) as [Hc|Hc];
      [|reflexivity].
    apply firstOfMonth_le in Hc. lia. }
  induction fuel as [|fuel IH]; intros fuel' year month Hm Hf Hf'.
  - rewrite (Hstop fuel') by (assumption || lia). reflexivity.
  - destruct fuel' as [|fuel'].
    + rewrite (Hstop (S fuel)) by (assumption || lia). reflexivity.
    + rewrite !changeDatesLoop_step by assumption.
      destruct (newDate 0 (12 * year + month) 1 <=? windowEndDate); [|reflexivity].
      f_equal.
      assert (Hidx : 12 * (year + (month + f) / 12) + (month + f) mod 12 =
                     12 * year + month + f) by (Z.div_mod_to_equations; lia).
      apply IH; [pose proof (Z.mod_pos_bound (month + f) 12); lia|lia|lia].
Qed.


End Loop.

(** The carry loop ends by its own test: more fuel changes nothing. *)
Lemma carryMonths_fuel extra year month :
  0 <= month ->
  carryMonths (carryFuel month + extra) year month =
  carryMonths (carryFuel month) year month.
Proof.
  intros H0. rewrite carryMonths_spec by assumption.
  pose proof (carryMonths_index (carryFuel month + extra) year month) as Hi.
  pose proof (carryMonths_range (carryFuel month + extra) year month H0) as Hr.
  unfold carryFuel in *.
  assert (Hq : 0 <= month / 12) by (apply Z.div_pos; lia).
  destruct (carryMonths (Z.to_nat (month / 12) + extra) year month) as [y m].
  cbn [snd] in Hr. assert (0 <= m <= 11) by (apply Hr; lia).
  f_equal; Z.div_mod_to_equations; lia.
Qed.

(** The schedule loop ends by its own test: more fuel changes nothing. *)
Lemma generateRentChangeDates_fuel extra wS wE f :
  0 < f ->
  let '(year, month) :=
    carryMonths (carryFuel (getMonth wS + f)) (getFullYear wS) (getMonth wS + f) in
  changeDatesLoop (changeDatesFuel wE year month + extra) wE f year month =
  generateRentChangeDates wS wE f.
Proof.
  intros Hf. unfold generateRentChangeDates.
  destruct (Z.leb_spec f 0) as [|_]; [lia|].
  pose proof (getMonth_bounds wS) as Hm.
  rewrite carryMonths_spec by lia.
  assert (Hrg : 0 <= (getMonth wS + f) mod 12 <= 11)
    by (pose proof (Z.mod_pos_bound (getMonth wS + f) 12); lia).
  apply changeDatesLoop_fuel; [exact Hf|exact Hrg| |]; unfold changeDatesFuel; lia.
Qed.

(** [generateRentChangeDates] in terms of the candidate dates. *)
Lemma generateRentChangeDates_In wS wE f d :
  0 < f ->
  (In d (generateRentChangeDates wS wE f) <->
   exists k, 1 <= k /\ d = changeDateAt wS f k /\ d <= wE).
Proof.
  intros Hf. unfold generateRentChangeDates, changeDateAt.
  destruct (Z.leb_spec f 0) as [|_]; [lia|].
  pose proof (getMonth_bounds wS) as Hm.
  rewrite carryMonths_spec by lia.
  assert (Hidx : 12 * (getFullYear wS + (getMonth wS + f) / 12) +
                 (getMonth wS + f) mod 12 = 12 * getFullYear wS + getMonth wS + f)
    by (Z.div_mod_to_equations; lia).
  assert (Hrg : 0 <= (getMonth wS + f) mod 12 <= 11)
    by (pose proof (Z.mod_pos_bound (getMonth wS + f) 12); lia).
  rewrite changeDatesLoop_In; [|exact Hf|exact Hrg|unfold changeDatesFuel; lia].
  rewrite Hidx. split.
  - intros (k & Hk & -> & Hle). exists (k + 1). repeat split; [lia| |exact Hle].
    rewrite (newDate_index (getFullYear wS)). f_equal. lia.
  - intros (k & Hk & -> & Hle). exists (k - 1). repeat split; [lia| |exact Hle].
    rewrite (newDate_index (getFullYear wS)). f_equal. lia.
Qed.


End ScheduleFacts.

Import ScheduleFacts.

(** ** Facts about rent changes and the recurring loop *)

Section RentFacts.

Context {num : Type} `{JSNumber num}.

Lemma applyChangesLoop_fold lease rate prev next dates : forall cur,
  applyAllApplicableRentChanges cur rate dates prev next lease =
  fold_left (fun r cd => if rentChangeApplies lease rate cd then changeRent rate r else r)
    (filter (inInterval prev next) dates) cur.
Proof.
  unfold applyAllApplicableRentChanges.
  induction dates as [|cd rest IH]; intros cur; [reflexivity|].
  cbn [applyChangesLoop filter]. rewrite IH. clear IH.
  assert (Hint : timeLtb match prev with Some p => Millis p | None => NegInfinity end cd
                 && (cd <=? next) = inInterval prev next cd)
    by (destruct prev; reflexivity).
  rewrite Hint. destruct (inInterval prev next cd); [|reflexivity].
  cbn [fold_left]. f_equal.
  unfold rentChangeApplies, calculateNewMonthlyRent, changeRent.
  rewrite (Z.ltb_antisym lease cd).
  destruct (lease <=? cd), (nltb (ofZ 0) rate), (nltb rate (ofZ 0)); reflexivity.
Qed.

Lemma fold_left_iter (A : Type) (q : A -> bool) (g : num -> num) (l : list A) :
  forall cur,
  fold_left (fun r a => if q a then g r else r) l cur =
  Nat.iter (length (filter q l)) g cur.
Proof.
  induction l as [|a l IH]; intros cur; [reflexivity|].
  cbn [fold_left filter]. rewrite IH. destruct (q a); [|reflexivity].
  cbn [length]. symmetry. apply Nat.iter_succ_r.
Qed.

Lemma filter_filter (A : Type) (p q : A -> bool) (l : list A) :
  filter q (filter p l) = filter (fun a => p a && q a) l.
Proof.
  induction l as [|a l IH]; [reflexivity|].
  cbn [filter]. destruct (p a); cbn [filter andb]; rewrite IH; reflexivity.
Qed.

(** The changes applied over an interval, counted. *)
Lemma applyChanges_iter lease rate prev next dates cur :
  applyAllApplicableRentChanges cur rate dates prev next lease =
  Nat.iter
    (length (filter (fun cd => inInterval prev next cd && rentChangeApplies lease rate cd)
               dates))
    (changeRent rate) cur.
Proof.
  rewrite applyChangesLoop_fold, fold_left_iter, filter_filter. reflexivity.
Qed.

Lemma changesUpTo_split lease rate dates p d :
  p <= d ->
  (length (changesUpTo lease rate dates p) +
   length (filter (fun cd => inInterval (Some p) d cd && rentChangeApplies lease rate cd)
             dates))%nat =
  length (changesUpTo lease rate dates d).
Proof.
  intros Hpd. unfold changesUpTo, inInterval.
  induction dates as [|cd rest IH]; [reflexivity|].
  cbn [filter].
  destruct (Z.leb_spec cd p), (Z.ltb_spec p cd), (Z.leb_spec cd d); try lia;
    destruct (rentChangeApplies lease rate cd); cbn [andb length]; lia.
Qed.

(** Applying the changes of [(p, d]] to the level at [p] gives the level
    at [d]. *)
Lemma rentLevelAt_advance base lease rate dates p d :
  p <= d ->
  applyAllApplicableRentChanges (rentLevelAt base lease rate dates p) rate dates
    (Some p) d lease = rentLevelAt base lease rate dates d.
Proof.
  intros Hpd. rewrite applyChanges_iter. unfold rentLevelAt.
  rewrite <- (changesUpTo_split lease rate dates p d Hpd).
  rewrite Nat.add_comm. symmetry. apply Nat.iter_add.
Qed.

Lemma rentLevelAt_initial base lease rate dates d :
  applyAllApplicableRentChanges base rate dates None d lease =
  rentLevelAt base lease rate dates d.
Proof. rewrite applyChanges_iter. reflexivity. Qed.

Section Loop.

Variables (leaseStartDate windowStartDate windowEndDate : Date).
Variables (dueDay : Z) (rentChangeRate : num) (rentChangeDates : list Date).

(** A property kept by every turn that is entered holds when the loop ends. *)
Lemma rentLoop_invariant (P : LoopState num -> Prop) :
  (forall st,
     P st -> currentDueDate st <= windowEndDate ->
     P (loopBody leaseStartDate windowStartDate windowEndDate dueDay rentChangeRate
          rentChangeDates st)) ->
  forall n st,
    P st ->
    P (rentLoop leaseStartDate windowStartDate windowEndDate dueDay rentChangeRate
         rentChangeDates n st).
Proof.
  intros Hstep. induction n as [|n IH]; intros st Hst; [exact Hst|].
  cbn [rentLoop].
  destruct (Z.gtb_spec (currentDueDate st) windowEndDate) as [Hgt|Hle]; [exact Hst|].
  apply IH. apply Hstep; assumption.
Qed.

(** The loop ends by its [break] or after exactly [n] turns. *)
Lemma rentLoop_exit n : forall st,
  let final :=
    rentLoop leaseStartDate windowStartDate windowEndDate dueDay rentChangeRate
      rentChangeDates n st in
  iterationSafety final <= iterationSafety st + Z.of_nat n /\
  (currentDueDate final > windowEndDate \/
   iterationSafety final = iterationSafety st + Z.of_nat n).
Proof.
  induction n as [|n IH]; intros st; cbn zeta.
  - cbn [rentLoop]. lia.
  - cbn [rentLoop].
    destruct (Z.gtb_spec (currentDueDate st) windowEndDate) as [Hgt|Hle].
    + split; [lia|]. left. lia.
    + specialize (IH (loopBody leaseStartDate windowStartDate windowEndDate dueDay
                        rentChangeRate rentChangeDates st)).
      cbn zeta in IH. cbn [loopBody iterationSafety] in IH.
      cbn [loopBody iterationSafety]. lia.
Qed.

Lemma rentLoop_length n : forall st,
  (length (results (rentLoop leaseStartDate windowStartDate windowEndDate dueDay
                      rentChangeRate rentChangeDates n st))
   <= length (results st) + n)%nat.
Proof.
  induction n as [|n IH]; intros st.
  - cbn [rentLoop]. lia.
  - cbn [rentLoop].
    destruct (currentDueDate st >? windowEndDate); [lia|].
    specialize (IH (loopBody leaseStartDate windowStartDate windowEndDate dueDay
                      rentChangeRate rentChangeDates st)).
    cbn [loopBody results] in IH.
    destruct ((windowStartDate <=? currentDueDate st) &&
              (currentDueDate st <=? windowEndDate));
      [rewrite length_app in IH; cbn [length] in IH|]; lia.
Qed.

End Loop.

(** Past its two guards, [calculateMonthlyRent] is its loop run from
    [startState]. *)
Lemma calculateMonthlyRent_run base lease wS wE dueDay freq rate :
  wS <= wE -> lease <= wE ->
  calculateMonthlyRent base lease wS wE dueDay freq rate =
  results
    (rentLoop lease wS wE dueDay rate (generateRentChangeDates wS wE freq) 500
       (startState base lease wS wE dueDay freq rate)).
Proof.
  intros Hw Hl. unfold calculateMonthlyRent, startState.
  destruct (Z.gtb_spec wS wE); [lia|]. destruct (Z.gtb_spec lease wE); [lia|].
  destruct (firstPayment _ lease (getDate lease) dueDay) as [amount second].
  cbn [fst snd app].
  destruct (rentLoop _ _ _ _ _ _ _ _). reflexivity.
Qed.

Lemma calculateMonthlyRent_guards base lease wS wE dueDay freq rate :
  wS > wE \/ lease > wE ->
  calculateMonthlyRent base lease wS wE dueDay freq rate = [].
Proof.
  intros Hg. unfold calculateMonthlyRent.
  destruct (Z.gtb_spec wS wE); [reflexivity|].
  destruct (Z.gtb_spec lease wE); [reflexivity|lia].
Qed.

(** With a due day of at least 1 the second payment is after the first. *)
Lemma secondPayment_gt (r : num) lease dueDay :
  1 <= dueDay -> lease < snd (firstPayment r lease (getDate lease) dueDay).
Proof.
  intros Hd. unfold firstPayment.
  destruct (Z.ltb_spec (getDate lease) dueDay) as [Hlt|Hge].
  - cbn [snd]. rewrite clampToLastDayOfMonth_id. apply same_month_later_day. exact Hlt.
  - destruct (getDate lease =? dueDay); cbn [snd]; apply nextMonthSameDueDay_gt; exact Hd.
Qed.

End RentFacts.

(** ** The properties of the specification *)

Section Properties.

Context {num : Type} `{JSNumber num}.

(** C2. Over the interval [(previousDate, upcomingDate]] (no lower end when
    the previous date is absent), the applier runs through the schedule
    dates of the interval in schedule order; at each it multiplies the
    running rent by [1 + rentChangeRate] exactly when the date is on or
    after the lease start and the rate is positive, or before the lease
    start and the rate is negative, and leaves it unchanged otherwise. It is
    a total function. *)
Theorem C2_rent_changes_over_interval
    (currentRent rentChangeRate : num) (rentChangeDates : list Date)
    (previousDate : option Date) (upcomingDate leaseStartDate : Date) :
  applyAllApplicableRentChanges currentRent rentChangeRate rentChangeDates
    previousDate upcomingDate leaseStartDate =
  fold_left
    (fun rent cd =>
       if ((leaseStartDate <=? cd) && nltb (ofZ 0) rentChangeRate) ||
          ((cd <? leaseStartDate) && nltb rentChangeRate (ofZ 0))
       then nmul rent (nadd (ofZ 1) rentChangeRate)
       else rent)
    (filter
       (fun cd =>
          match previousDate with
          | Some p => (p <? cd) && (cd <=? upcomingDate)
          | None => cd <=? upcomingDate
          end)
       rentChangeDates)
    currentRent.
Proof. apply applyChangesLoop_fold. Qed.

(** C3. With a due day in 1..31, [startDay] the day of the month of the
    lease start and [r] the rent after the changes before the first payment:
    if [startDay < dueDay] the first payment is [r * ((dueDay - startDay) / 30)];
    if [startDay = dueDay] it is [r], and if [startDay > dueDay] it is
    [r * (1 - (startDay - dueDay) / 30)], and in these two cases the second
    payment date is the due day of the next calendar month, clamped to that
    month's length, at midnight. The denominator is always 30. *)
Theorem C3_first_payment (r : num) (leaseStartDate : Date) (dueDay : Z) :
  1 <= dueDay <= 31 ->
  let startDay := getDate leaseStartDate in
  let first := firstPayment r leaseStartDate startDay dueDay in
  let next := monthIndex leaseStartDate + 1 in
  (startDay < dueDay ->
   fst first = nmul r (ndiv (ofZ (dueDay - startDay)) (ofZ 30))) /\
  (startDay = dueDay -> fst first = r) /\
  (startDay > dueDay ->
   fst first = nmul r (nsub (ofZ 1) (ndiv (ofZ (startDay - dueDay)) (ofZ 30)))) /\
  (startDay >= dueDay ->
   snd first = dueDateIn next dueDay /\
   monthIndex (snd first) = next /\
   getDate (snd first) = Z.min dueDay (daysInMonth next) /\
   snd first mod msPerDay = 0).
Proof.
  intros Hd startDay first next. subst first. unfold firstPayment.
  destruct (Z.ltb_spec startDay dueDay) as [Hlt|Hge].
  - cbn [fst snd]. split; [reflexivity|].
    split; [intros Hc; exfalso; lia|]. split; intros Hc; exfalso; lia.
  - pose proof (dueDateIn_fields next dueDay (proj1 Hd)) as Hf.
    destruct (Z.eqb_spec startDay dueDay) as [Heq|Hne]; cbn [fst snd];
      rewrite nextMonthSameDueDay_dueDateIn; fold next.
    + split; [intros Hc; exfalso; lia|]. split; [reflexivity|].
      split; [intros Hc; exfalso; lia|]. intros _. split; [reflexivity|exact Hf].
    + split; [intros Hc; exfalso; lia|]. split; [intros Hc; exfalso; lia|].
      split; [reflexivity|]. intros _. split; [reflexivity|exact Hf].
Qed.

(** C4. For a due day of at least 1, the due dates of the returned records
    are strictly increasing in the order of the result. *)
Theorem C4_due_dates_strictly_increasing
    (baseMonthlyRent : num) (leaseStartDate windowStartDate windowEndDate : Date)
    (dayOfMonthRentDue rentRateChangeFrequency : Z) (rentChangeRate : num) :
  1 <= dayOfMonthRentDue ->
  StronglySorted Z.lt
    (map rentDueDate
       (calculateMonthlyRent baseMonthlyRent leaseStartDate windowStartDate
          windowEndDate dayOfMonthRentDue rentRateChangeFrequency rentChangeRate)).
Proof.
  intros Hd.
  destruct (Z_gt_le_dec windowStartDate windowEndDate) as [Hw|Hw];
    [rewrite calculateMonthlyRent_guards by tauto; constructor|].
  destruct (Z_gt_le_dec leaseStartDate windowEndDate) as [Hl|Hl];
    [rewrite calculateMonthlyRent_guards by tauto; constructor|].
  rewrite calculateMonthlyRent_run by assumption.
  set (P := fun st : LoopState num =>
    StronglySorted Z.lt (map rentDueDate (results st)) /\
    Forall (fun d => d < currentDueDate st) (map rentDueDate (results st))).
  enough (HP : P (rentLoop leaseStartDate windowStartDate windowEndDate
                    dayOfMonthRentDue rentChangeRate
                    (generateRentChangeDates windowStartDate windowEndDate
                       rentRateChangeFrequency) 500
                    (startState baseMonthlyRent leaseStartDate windowStartDate
                       windowEndDate dayOfMonthRentDue rentRateChangeFrequency
                       rentChangeRate))) by apply HP.
  apply rentLoop_invariant.
  - intros st [Hs Hall] _.
    pose proof (nextMonthSameDueDay_gt (currentDueDate st) dayOfMonthRentDue Hd) as Hn.
    unfold P. cbn [loopBody results currentDueDate].
    destruct ((windowStartDate <=? currentDueDate st) &&
              (currentDueDate st <=? windowEndDate)).
    + rewrite map_app. cbn [map rentDueDate]. split.
      * clear Hn. induction Hs as [|a l Hs IH Ha]; cbn [app].
        -- repeat constructor.
        -- inversion Hall; subst. constructor; [apply IH; assumption|].
           apply Forall_app. split; [exact Ha|]. constructor; [assumption|constructor].
      * apply Forall_app. split.
        -- eapply Forall_impl; [|exact Hall]. cbn beta. intros d Hlt. lia.
        -- constructor; [exact Hn|constructor].
    + split; [exact Hs|]. eapply Forall_impl; [|exact Hall]. cbn beta. intros d Hlt. lia.
  - unfold P, startState. cbn [results currentDueDate].
    pose proof (secondPayment_gt
      (applyAllApplicableRentChanges baseMonthlyRent rentChangeRate
         (generateRentChangeDates windowStartDate windowEndDate rentRateChangeFrequency)
         None leaseStartDate leaseStartDate) leaseStartDate dayOfMonthRentDue Hd) as Hs.
    destruct ((windowStartDate <=? leaseStartDate) && (leaseStartDate <=? windowEndDate));
      cbn [map rentDueDate]; split; repeat constructor. exact Hs.
Qed.

(** C5. Every returned record has its due date inside the observation
    window, bounds included. *)
Theorem C5_records_inside_window
    (baseMonthlyRent : num) (leaseStartDate windowStartDate windowEndDate : Date)
    (dayOfMonthRentDue rentRateChangeFrequency : Z) (rentChangeRate : num) :
  Forall (fun r => windowStartDate <= rentDueDate r <= windowEndDate)
    (calculateMonthlyRent baseMonthlyRent leaseStartDate windowStartDate
       windowEndDate dayOfMonthRentDue rentRateChangeFrequency rentChangeRate).
Proof.
  destruct (Z_gt_le_dec windowStartDate windowEndDate) as [Hw|Hw];
    [rewrite calculateMonthlyRent_guards by tauto; constructor|].
  destruct (Z_gt_le_dec leaseStartDate windowEndDate) as [Hl|Hl];
    [rewrite calculateMonthlyRent_guards by tauto; constructor|].
  rewrite calculateMonthlyRent_run by assumption.
  apply (rentLoop_invariant leaseStartDate windowStartDate windowEndDate
           dayOfMonthRentDue rentChangeRate _
           (fun st => Forall (fun r => windowStartDate <= rentDueDate r <= windowEndDate)
                        (results st))).
  - intros st Hall _. cbn [loopBody results].
    destruct (Z.leb_spec windowStartDate (currentDueDate st)),
             (Z.leb_spec (currentDueDate st) windowEndDate); cbn [andb]; try exact Hall.
    apply Forall_app. split; [exact Hall|]. constructor; [|constructor].
    cbn [rentDueDate]. lia.
  - unfold startState. cbn [results].
    destruct (Z.leb_spec windowStartDate leaseStartDate),
             (Z.leb_spec leaseStartDate windowEndDate); cbn [andb]; constructor;
      [cbn [rentDueDate]; lia | constructor].
Qed.



(** C10. For a due day of at least 1: the result is the first-payment
    record (when the lease start is in the window), whose amount is the
    rounding of the prorated unrounded rent level at the lease start,
    followed by records whose amount is the rounding of the unrounded rent
    level at their own due date, that is of the base rent multiplied by
    [1 + rentChangeRate] once for each applying schedule change dated on or
    before that due date. Rounding is to two decimals: [Math.round] of the
    hundredfold, divided by 100. The running rent of the loop is that
    unrounded level: no rounded amount is fed back into it. *)
Theorem C10_rounding_only_at_emission
    (baseMonthlyRent : num) (leaseStartDate windowStartDate windowEndDate : Date)
    (dayOfMonthRentDue rentRateChangeFrequency : Z) (rentChangeRate : num) :
  1 <= dayOfMonthRentDue ->
  let schedule :=
    generateRentChangeDates windowStartDate windowEndDate rentRateChangeFrequency in
  let level := rentLevelAt baseMonthlyRent leaseStartDate rentChangeRate schedule in
  let final :=
    rentLoop leaseStartDate windowStartDate windowEndDate dayOfMonthRentDue
      rentChangeRate schedule 500
      (startState baseMonthlyRent leaseStartDate windowStartDate windowEndDate
         dayOfMonthRentDue rentRateChangeFrequency rentChangeRate) in
  currentMonthlyRent final = level (previousDueDate final) /\
  exists rest,
    calculateMonthlyRent baseMonthlyRent leaseStartDate windowStartDate
      windowEndDate dayOfMonthRentDue rentRateChangeFrequency rentChangeRate =
    (if (windowStartDate <=? leaseStartDate) && (leaseStartDate <=? windowEndDate)
     then [firstPaymentRecord baseMonthlyRent leaseStartDate windowStartDate
             windowEndDate dayOfMonthRentDue rentRateChangeFrequency rentChangeRate]
     else []) ++ rest /\
    Forall
      (fun r =>
         rentAmount r =
         ndiv (mathRound (nmul (level (rentDueDate r)) (ofZ 100))) (ofZ 100))
      rest.
Proof.
  intros Hd schedule level final.
  set (pre := if (windowStartDate <=? leaseStartDate) && (leaseStartDate <=? windowEndDate)
              then [firstPaymentRecord baseMonthlyRent leaseStartDate windowStartDate
                      windowEndDate dayOfMonthRentDue rentRateChangeFrequency
                      rentChangeRate]
              else []).
  set (P := fun st : LoopState num =>
    currentMonthlyRent st = level (previousDueDate st) /\
    previousDueDate st <= currentDueDate st /\
    exists rest, results st = pre ++ rest /\
      Forall (fun r => rentAmount r = roundToTwo (level (rentDueDate r))) rest).
  assert (HP : P final).
  { subst final. apply rentLoop_invariant.
    - intros st (Hrent & Hord & rest & Hres & Hall) _.
      pose proof (nextMonthSameDueDay_gt (currentDueDate st) dayOfMonthRentDue Hd) as Hn.
      assert (Hnew : applyAllApplicableRentChanges (currentMonthlyRent st) rentChangeRate
                       schedule (Some (previousDueDate st)) (currentDueDate st)
                       leaseStartDate = level (currentDueDate st)).
      { rewrite Hrent. subst level. apply rentLevelAt_advance. exact Hord. }
      unfold P. cbn [loopBody results currentDueDate previousDueDate currentMonthlyRent].
      rewrite Hnew. split; [reflexivity|]. split; [lia|].
      destruct ((windowStartDate <=? currentDueDate st) &&
                (currentDueDate st <=? windowEndDate)).
      + exists (rest ++ [{| vacancy := false;
                            rentAmount := roundToTwo (level (currentDueDate st));
                            rentDueDate := currentDueDate st |}]).
        split; [rewrite Hres, app_assoc; reflexivity|].
        apply Forall_app. split; [exact Hall|]. constructor; [reflexivity|constructor].
      + exists rest. split; assumption.
    - unfold P, startState.
      cbn [results currentDueDate previousDueDate currentMonthlyRent].
      split; [apply rentLevelAt_initial|]. split.
      + apply Z.lt_le_incl. apply secondPayment_gt. exact Hd.
      + exists []. split; [|constructor]. rewrite app_nil_r. subst pre.
        unfold firstPaymentRecord. rewrite rentLevelAt_initial. reflexivity. }
  destruct HP as (Hrent & _ & rest & Hres & Hall). split; [exact Hrent|].
  destruct (Z_gt_le_dec windowStartDate windowEndDate) as [Hw|Hw].
  { exists []. rewrite calculateMonthlyRent_guards by tauto. split; [|constructor].
    subst pre. destruct (Z.leb_spec windowStartDate leaseStartDate),
      (Z.leb_spec leaseStartDate windowEndDate); cbn [andb app]; try reflexivity. lia. }
  destruct (Z_gt_le_dec leaseStartDate windowEndDate) as [Hl|Hl].
  { exists []. rewrite calculateMonthlyRent_guards by tauto. split; [|constructor].
    subst pre. destruct (Z.leb_spec windowStartDate leaseStartDate),
      (Z.leb_spec leaseStartDate windowEndDate); cbn [andb app]; try reflexivity. lia. }
  exists rest. rewrite calculateMonthlyRent_run by assumption. split; assumption.
Qed.

End Properties.

(** In exact arithmetic the unrounded rent level is the base rent times a
    power of [1 + rentChangeRate]. *)
Lemma rentLevelAt_power (base : Qc) lease (rate : Qc) schedule d :
  rentLevelAt base lease rate schedule d =
  (base * (1 + rate) ^ length (changesUpTo lease rate schedule d))%Qc.
Proof.
  unfold rentLevelAt. induction (length (changesUpTo lease rate schedule d)) as [|n IH].
  - cbn [Qcpower]. change (Nat.iter 0 (changeRent rate) base) with base. ring.
  - rewrite Nat.iter_succ, IH. cbn [Qcpower]. unfold changeRent.
    cbn [nmul nadd ofZ QcNumber]. change (Q2Qc (inject_Z 1)) with 1%Qc. ring.
Qed.

(** A due day past the end of the month of the lease start, in the branch
    [startDay < dueDay]: the second payment date is not clamped, it is a day
    of a later month. *)
Lemma same_month_branch_rolls_over (r : Qc) lease dueDay :
  getDate lease < dueDay -> daysInMonth (monthIndex lease) < dueDay ->
  snd (firstPayment r lease (getDate lease) dueDay) =
    newDate (getFullYear lease) (getMonth lease) dueDay /\
  monthIndex lease < monthIndex (snd (firstPayment r lease (getDate lease) dueDay)).
Proof.
  intros Hlt Hlen. unfold firstPayment.
  destruct (Z.ltb_spec (getDate lease) dueDay); [|lia]. cbn [snd].
  rewrite clampToLastDayOfMonth_id. split; [reflexivity|].
  pose proof (monthIndex_spec (newDate (getFullYear lease) (getMonth lease) dueDay)) as Hs.
  rewrite dayOf_newDate, year_month_index in Hs.
  pose proof (monthStart_succ (monthIndex lease)) as Hsucc.
  assert (Hm : monthIndex lease + 1 <
               monthIndex (newDate (getFullYear lease) (getMonth lease) dueDay) + 1)
    by (apply monthStart_lt_inv; lia).
  lia.
Qed.

(** Advancing into the next month does clamp, and depends only on the month
    advanced from. *)
Lemma nextMonthSameDueDay_clamps d dueDay :
  1 <= dueDay -> daysInMonth (monthIndex d + 1) < dueDay ->
  monthIndex (nextMonthSameDueDay d dueDay) = monthIndex d + 1 /\
  getDate (nextMonthSameDueDay d dueDay) = daysInMonth (monthIndex d + 1).
Proof.
  intros Hd Hlen. rewrite nextMonthSameDueDay_dueDateIn.
  destruct (dueDateIn_fields (monthIndex d + 1) dueDay Hd) as (Hi & Hg & _).
  split; [exact Hi|]. rewrite Hg. lia.
Qed.

Lemma nextMonthSameDueDay_same_month d1 d2 dueDay :
  monthIndex d1 = monthIndex d2 ->
  nextMonthSameDueDay d1 dueDay = nextMonthSameDueDay d2 dueDay.
Proof. intros Heq. rewrite !nextMonthSameDueDay_dueDateIn, Heq. reflexivity. Qed.

(** ** Scenarios *)

Lemma sameRecords_eq l1 : forall l2, sameRecords l1 l2 = true -> l1 = l2.
Proof.
  induction l1 as [|a l1 IH]; intros [|b l2] Hs; cbn [sameRecords] in Hs;
    try discriminate; [reflexivity|].
  apply andb_prop in Hs. destruct Hs as [Hab Hl]. f_equal; [|apply IH; exact Hl].
  unfold sameRecord in Hab. apply andb_prop in Hab. destruct Hab as [Hab Hd].
  apply andb_prop in Hab. destruct Hab as [Hv Hq].
  destruct a as [va qa da], b as [vb qb db]. cbn [vacancy rentAmount rentDueDate] in *.
  apply Bool.eqb_prop in Hv. apply Z.eqb_eq in Hd. apply Qeq_bool_eq in Hq.
  apply Qc_is_canon in Hq. subst. reflexivity.
Qed.

(** C1. Lease start 2023-02-10 with due day 31: February 2023 has 28 days,
    yet the second payment date is 2023-03-03 and not 2023-02-28; the due
    dates of the records run 02-10, 03-03, 04-30. *)
Theorem C1_same_month_clamp_rolls_over :
  let lease := ymd 2023 2 10 in
  getDate lease = 10 /\
  daysInMonth (monthIndex lease) = 28 /\
  (forall r : Qc, snd (firstPayment r lease (getDate lease) 31) = ymd 2023 3 3) /\
  ymd 2023 3 3 <> ymd 2023 2 28 /\
  map rentDueDate
    (calculateMonthlyRent (Q2Qc 100) lease (ymd 2023 1 1) (ymd 2023 4 30) 31 0 (Q2Qc 0)) =
  [ymd 2023 2 10; ymd 2023 3 3; ymd 2023 4 30].
Proof.
  cbv zeta. split; [vm_compute; reflexivity|]. split; [vm_compute; reflexivity|].
  split; [intros r; vm_compute; reflexivity|].
  split; [vm_compute; discriminate|]. vm_compute. reflexivity.
Qed.

(** C8. Base rent 300, lease from 2023-06-15, window 2023-04-01 to
    2023-08-31, due day 15, a change of -10 percent every month: the schedule
    is the firsts of May to August, the two changes before the lease start
    bring the rent to 243 before the first payment, and the result is 243.00
    due on 06-15, 07-15 and 08-15, in exact arithmetic and in binary64
    alike. *)
Theorem C8_vacant_decrease_scenario :
  generateRentChangeDates (ymd 2023 4 1) (ymd 2023 8 31) 1 =
    [ymd 2023 5 1; ymd 2023 6 1; ymd 2023 7 1; ymd 2023 8 1] /\
  applyAllApplicableRentChanges (Q2Qc 300) (Q2Qc (-1 # 10))
    (generateRentChangeDates (ymd 2023 4 1) (ymd 2023 8 31) 1) None
    (ymd 2023 6 15) (ymd 2023 6 15) = Q2Qc 243 /\
  calculateMonthlyRent (Q2Qc 300) (ymd 2023 6 15) (ymd 2023 4 1) (ymd 2023 8 31)
    15 1 (Q2Qc (-1 # 10)) =
    [record (Q2Qc 243) (ymd 2023 6 15); record (Q2Qc 243) (ymd 2023 7 15);
     record (Q2Qc 243) (ymd 2023 8 15)] /\
  calculateMonthlyRent 300%float (ymd 2023 6 15) (ymd 2023 4 1) (ymd 2023 8 31)
    15 1 (-0.1)%float =
    [record 243%float (ymd 2023 6 15); record 243%float (ymd 2023 7 15);
     record 243%float (ymd 2023 8 15)].
Proof.
  split; [vm_compute; reflexivity|].
  split; [apply Qc_is_canon; vm_compute; reflexivity|].
  split; [apply sameRecords_eq|]; vm_compute; reflexivity.
Qed.

(** The schedule of the source's own example: a window from 15 March and a
    frequency of 2 give 1 May, 1 July, 1 September. *)
Example schedule_every_two_months :
  generateRentChangeDates (ymd 2023 3 15) (ymd 2023 10 15) 2 =
  [ymd 2023 5 1; ymd 2023 7 1; ymd 2023 9 1].
Proof. vm_compute. reflexivity. Qed.

(** The constructor rolls a day past the end of a month into the next one. *)
Example february_31_is_march_3 :
  newDate 2023 1 31 = ymd 2023 3 3 /\
  (getFullYear (newDate 2023 1 31), getMonth (newDate 2023 1 31),
   getDate (newDate 2023 1 31)) = (2023, 2, 3).
Proof. vm_compute. split; reflexivity. Qed.

(** A window of more than 500 monthly due dates is cut by the counter: the
    loop stops after 500 turns with the current due date still inside the
    window. *)
Example iteration_cap_reached :
  let final :=
    rentLoop (ymd 2023 1 1) (ymd 2023 1 1) (ymd 2100 12 31) 1 (Q2Qc 0)
      (generateRentChangeDates (ymd 2023 1 1) (ymd 2100 12 31) 0) 500
      (startState (Q2Qc 100) (ymd 2023 1 1) (ymd 2023 1 1) (ymd 2100 12 31) 1 0
         (Q2Qc 0)) in
  iterationSafety final = 500 /\
  currentDueDate final = ymd 2064 10 1 /\
  (currentDueDate final <=? ymd 2100 12 31) = true /\
  length (results final) = 501%nat.
Proof. vm_compute. repeat split; reflexivity. Qed.

(** Outside the data model, with a due day of 0, the due date never
    advances past 31 January: only the counter ends the loop, after 500
    records on the same day. *)
Example due_day_zero_stalls :
  let result :=
    calculateMonthlyRent (Q2Qc 100) (ymd 2023 1 31) (ymd 2023 1 1) (ymd 2023 3 31)
      0 0 (Q2Qc 0) in
  length result = 501%nat /\
  forallb (fun r => rentDueDate r =? ymd 2023 1 31) result = true.
Proof. vm_compute. split; reflexivity. Qed.

(** The scenarios 1 to 4 of the specification, in binary64. *)
Example scenario_1 :
  calculateMonthlyRent 100%float (ymd 2023 1 1) (ymd 2023 1 1) (ymd 2023 3 31) 1 1
    0.1%float =
  [record 100%float (ymd 2023 1 1); record 110%float (ymd 2023 2 1);
   record 121%float (ymd 2023 3 1)].
Proof. vm_compute. reflexivity. Qed.

Example scenario_2 :
  calculateMonthlyRent 100%float (ymd 2023 1 1) (ymd 2023 1 1) (ymd 2023 3 31) 15 1
    0.1%float =
  [record 46.67%float (ymd 2023 1 1); record 100%float (ymd 2023 1 15);
   record 110%float (ymd 2023 2 15); record 121%float (ymd 2023 3 15)].
Proof. vm_compute. reflexivity. Qed.

Example scenario_3 :
  calculateMonthlyRent 100%float (ymd 2023 1 20) (ymd 2023 1 1) (ymd 2023 3 31) 10 0
    0%float =
  [record 66.67%float (ymd 2023 1 20); record 100%float (ymd 2023 2 10);
   record 100%float (ymd 2023 3 10)].
Proof. vm_compute. reflexivity. Qed.

Example scenario_4 :
  calculateMonthlyRent 100%float (ymd 2023 1 31) (ymd 2023 1 1) (ymd 2023 4 30) 31 0
    0%float =
  [record 100%float (ymd 2023 1 31); record 100%float (ymd 2023 2 28);
   record 100%float (ymd 2023 3 31); record 100%float (ymd 2023 4 30)].
Proof. vm_compute. reflexivity. Qed.

(** ** Instances of the conditional properties *)

Lemma C3_first_payment_witness :
  1 <= 10 <= 31 /\
  fst (firstPayment (Q2Qc 100) (ymd 2023 1 20) (getDate (ymd 2023 1 20)) 10) =
    nmul (Q2Qc 100) (nsub (ofZ 1) (ndiv (ofZ (getDate (ymd 2023 1 20) - 10)) (ofZ 30))) /\
  getDate (snd (firstPayment (Q2Qc 100) (ymd 2023 1 20) (getDate (ymd 2023 1 20)) 10)) =
    Z.min 10 (daysInMonth (monthIndex (ymd 2023 1 20) + 1)).
Proof.
  assert (Hd : 1 <= 10 <= 31) by lia.
  assert (Hs : getDate (ymd 2023 1 20) > 10) by (vm_compute; reflexivity).
  assert (Hs' : getDate (ymd 2023 1 20) >= 10) by (vm_compute; discriminate).
  destruct (C3_first_payment (Q2Qc 100) (ymd 2023 1 20) 10 Hd) as (_ & _ & Ha & Hn).
  split; [exact Hd|]. split; [exact (Ha Hs)|]. exact (proj1 (proj2 (proj2 (Hn Hs')))).
Defined.

Lemma C4_due_dates_strictly_increasing_witness :
  1 <= 15 /\
  StronglySorted Z.lt
    (map rentDueDate
       (calculateMonthlyRent (Q2Qc 100) (ymd 2023 1 1) (ymd 2023 1 1) (ymd 2023 3 31)
          15 1 (Q2Qc (1 # 10)))).
Proof.
  split; [lia|].
  apply (C4_due_dates_strictly_increasing (Q2Qc 100) (ymd 2023 1 1) (ymd 2023 1 1)
           (ymd 2023 3 31) 15 1 (Q2Qc (1 # 10))).
  lia.
Defined.


Lemma C10_rounding_only_at_emission_witness :
  1 <= 15 /\
  exists rest,
    calculateMonthlyRent (Q2Qc 300) (ymd 2023 6 15) (ymd 2023 4 1) (ymd 2023 8 31)
      15 1 (Q2Qc (-1 # 10)) =
    (if (ymd 2023 4 1 <=? ymd 2023 6 15) && (ymd 2023 6 15 <=? ymd 2023 8 31)
     then [firstPaymentRecord (Q2Qc 300) (ymd 2023 6 15) (ymd 2023 4 1)
             (ymd 2023 8 31) 15 1 (Q2Qc (-1 # 10))]
     else []) ++ rest /\
    Forall
      (fun r =>
         rentAmount r =
         ndiv
           (mathRound
              (nmul
                 (rentLevelAt (Q2Qc 300) (ymd 2023 6 15) (Q2Qc (-1 # 10))
                    (generateRentChangeDates (ymd 2023 4 1) (ymd 2023 8 31) 1)
                    (rentDueDate r))
                 (ofZ 100)))
           (ofZ 100))
      rest.
Proof.
  assert (Hd : 1 <= 15) by lia.
  split; [exact Hd|].
  exact (proj2 (C10_rounding_only_at_emission (Q2Qc 300) (ymd 2023 6 15) (ymd 2023 4 1)
                  (ymd 2023 8 31) 15 1 (Q2Qc (-1 # 10)) Hd)).
Defined.

(** ** Further properties of the calendar helpers *)

Lemma february_length y :
  daysInMonth (12 * y + 1) = if inLeapYear y then 29 else 28.
Proof.
  unfold daysInMonth, monthStart.
  replace ((12 * y + 1 + 1) / 12) with y by (Z.div_mod_to_equations; lia).
  replace ((12 * y + 1 + 1) mod 12) with 2 by (Z.div_mod_to_equations; lia).
  replace ((12 * y + 1) / 12) with y by (Z.div_mod_to_equations; lia).
  replace ((12 * y + 1) mod 12) with 1 by (Z.div_mod_to_equations; lia).
  destruct (inLeapYear y); cbn [daysBeforeMonth]; lia.
Qed.

Lemma isLeapYear_calendar y :
  isLeapYear y = inLeapYear y && negb (y mod 400 =? 0).
Proof.
  unfold isLeapYear, inLeapYear.
  assert (H4 : (Z.rem y 4 =? 0) = (y mod 4 =? 0)).
  { destruct (Z.eqb_spec (Z.rem y 4) 0) as [E|E], (Z.eqb_spec (y mod 4) 0) as [F|F];
      try reflexivity; rewrite Z.rem_mod_eq_0 in E by lia; contradiction. }
  assert (H100 : (Z.rem y 100 =? 0) = (y mod 100 =? 0)).
  { destruct (Z.eqb_spec (Z.rem y 100) 0) as [E|E], (Z.eqb_spec (y mod 100) 0) as [F|F];
      try reflexivity; rewrite Z.rem_mod_eq_0 in E by lia; contradiction. }
  rewrite H4, H100.
  destruct (Z.eqb_spec (y mod 4) 0), (Z.eqb_spec (y mod 100) 0),
    (Z.eqb_spec (y mod 400) 0); cbn [andb orb negb]; try reflexivity;
    exfalso; Z.div_mod_to_equations; lia.
Qed.

(** X1. [clampToLastDayOfMonth] returns its argument for every date: the
    day of a date is never past the end of the date's own month, so the
    branch that would build a clamped date is never taken. *)
Theorem X1_clamp_returns_its_argument (d : Date) : clampToLastDayOfMonth d = d.
Proof.
  unfold clampToLastDayOfMonth.
  rewrite lastDay_daysInMonth, year_month_index.
  pose proof (getDate_bounds d) as Hb.
  destruct (Z.gtb_spec (getDate d) (daysInMonth (monthIndex d))) as [Hgt|Hle].
  - exfalso. lia.
  - reflexivity.
Qed.

(** X2. For a day of the month of at least 1, [nextMonthSameDueDay] gives a
    date at midnight in the calendar month after that of [currentDate]
    (January of the next year after a December), strictly after
    [currentDate], whose day is the smaller of [dayOfMonth] and the length of
    that month. *)
Theorem X2_next_month_fields (currentDate : Date) (dayOfMonth : Z) :
  1 <= dayOfMonth ->
  let next := nextMonthSameDueDay currentDate dayOfMonth in
  (getMonth currentDate < 11 ->
   getFullYear next = getFullYear currentDate /\
   getMonth next = getMonth currentDate + 1) /\
  (getMonth currentDate = 11 ->
   getFullYear next = getFullYear currentDate + 1 /\ getMonth next = 0) /\
  getDate next = Z.min dayOfMonth (daysInMonth (monthIndex next)) /\
  next mod msPerDay = 0 /\
  currentDate < next.
Proof.
  intros Hd next.
  pose proof (nextMonthSameDueDay_gt currentDate dayOfMonth Hd) as Hgt.
  assert (Hn : next = dueDateIn (monthIndex currentDate + 1) dayOfMonth)
    by apply nextMonthSameDueDay_dueDateIn.
  destruct (dueDateIn_fields (monthIndex currentDate + 1) dayOfMonth Hd) as (Hi & Hg & Hm).
  rewrite <- Hn in Hi, Hg, Hm.
  pose proof (year_month_index next) as Hyn.
  pose proof (year_month_index currentDate) as Hyc.
  pose proof (getMonth_bounds next) as Hbn.
  pose proof (getMonth_bounds currentDate) as Hbc.
  split; [intros Hlt; lia|]. split; [intros Heq; lia|].
  split; [rewrite Hi; exact Hg|]. split; [exact Hm|exact Hgt].
Qed.

(** X3. [nextMonthSameDueDay] bounds the day only from above: with a day of
    the month of 0 or less the result is not in the next month, it falls in
    the month of [currentDate] or an earlier one. *)
Theorem X3_nonpositive_day_does_not_advance (currentDate : Date) (dayOfMonth : Z) :
  dayOfMonth <= 0 ->
  monthIndex (nextMonthSameDueDay currentDate dayOfMonth) <= monthIndex currentDate.
Proof.
  intros Hd. rewrite nextMonthSameDueDay_dueDateIn. unfold dueDateIn.
  pose proof (daysInMonth_bounds (monthIndex currentDate + 1)) as Hb.
  rewrite Z.min_l by lia.
  pose proof (monthIndex_spec (newDate 0 (monthIndex currentDate + 1) dayOfMonth)) as Hs.
  rewrite dayOf_newDate in Hs.
  replace (12 * 0 + (monthIndex currentDate + 1)) with (monthIndex currentDate + 1)
    in Hs by lia.
  assert (Hlt : monthIndex (newDate 0 (monthIndex currentDate + 1) dayOfMonth) <
                monthIndex currentDate + 1) by (apply monthStart_lt_inv; lia).
  lia.
Qed.

(** X4. Due dates do not drift: for a day of the month of at least 1,
    advancing [n + 1] times from [d] gives the due day of the month [n + 1]
    months after the month of [d], clamped to the length of that month only;
    a clamp in a short month on the way leaves no trace. *)
Theorem X4_due_dates_do_not_drift (d : Date) (dayOfMonth : Z) (n : nat) :
  1 <= dayOfMonth ->
  let later := Nat.iter (S n) (fun c => nextMonthSameDueDay c dayOfMonth) d in
  later = dueDateIn (monthIndex d + Z.of_nat (S n)) dayOfMonth /\
  monthIndex later = monthIndex d + Z.of_nat (S n) /\
  getDate later = Z.min dayOfMonth (daysInMonth (monthIndex d + Z.of_nat (S n))).
Proof.
  intros Hd later.
  assert (Hl : later = dueDateIn (monthIndex d + Z.of_nat (S n)) dayOfMonth).
  { subst later. induction n as [|n IH].
    - cbn [Nat.iter nat_rect]. rewrite nextMonthSameDueDay_dueDateIn.
      f_equal.
    - rewrite Nat.iter_succ, IH, nextMonthSameDueDay_dueDateIn.
      destruct (dueDateIn_fields (monthIndex d + Z.of_nat (S n)) dayOfMonth Hd)
        as (Hi & _).
      rewrite Hi. f_equal. lia. }
  destruct (dueDateIn_fields (monthIndex d + Z.of_nat (S n)) dayOfMonth Hd)
    as (Hi & Hg & _).
  rewrite Hl. split; [reflexivity|]. split; assumption.
Qed.

(** X5. [isLeapYear] tests divisibility by 4 and not by 100 only. It agrees
    with the calendar of [Date] (February has 29 days) for every year that
    is not a multiple of 400, and answers [false] for every multiple of 400,
    whose February has 29 days. *)
Theorem X5_isLeapYear_misses_multiples_of_400 (year : Z) :
  (isLeapYear year = true -> daysInMonth (12 * year + 1) = 29) /\
  (year mod 400 <> 0 ->
   (isLeapYear year = true <-> daysInMonth (12 * year + 1) = 29)) /\
  (year mod 400 = 0 ->
   isLeapYear year = false /\ daysInMonth (12 * year + 1) = 29).
Proof.
  rewrite february_length, isLeapYear_calendar.
  assert (Hl : year mod 400 = 0 -> inLeapYear year = true).
  { intros H0. unfold inLeapYear.
    replace (year mod 4) with 0 by (Z.div_mod_to_equations; lia).
    replace (year mod 400) with 0 by lia.
    rewrite Bool.orb_true_r. reflexivity. }
  destruct (Z.eqb_spec (year mod 400) 0) as [E|E]; cbn [negb].
  - rewrite (Hl E). cbn [andb]. split; [discriminate|]. split; [contradiction|].
    intros _. split; reflexivity.
  - rewrite Bool.andb_true_r. destruct (inLeapYear year).
    + split; [reflexivity|]. split; [intros _; split; reflexivity|contradiction].
    + split; [discriminate|]. split; [|contradiction].
      intros _. split; [discriminate|lia].
Qed.

(** ** Further properties of the schedule *)


Lemma changeDateAt_index wS f k :
  changeDateAt wS f k = newDate 0 (monthIndex wS + k * f) 1.
Proof.
  unfold changeDateAt. rewrite newDate_index. f_equal.
  pose proof (year_month_index wS). lia.
Qed.

Lemma generateRentChangeDates_fields
    (windowStartDate windowEndDate : Date) (frequencyMonths : Z) (d : Date) :
  In d (generateRentChangeDates windowStartDate windowEndDate frequencyMonths) ->
  getDate d = 1 /\
  d mod msPerDay = 0 /\
  monthIndex windowStartDate < monthIndex d /\
  windowStartDate < d <= windowEndDate.
Proof.
  intros Hin.
  destruct (Z_lt_le_dec 0 frequencyMonths) as [Hf|Hf].
  - apply generateRentChangeDates_In in Hin; [|exact Hf].
    destruct Hin as (k & Hk & Hd & Hle). rewrite changeDateAt_index in Hd.
    remember (monthIndex windowStartDate + k * frequencyMonths) as mi eqn:Emi.
    assert (Hmi : monthIndex windowStartDate < mi) by nia.
    pose proof (daysInMonth_bounds mi) as Hb.
    assert (Hone : 1 <= 1 <= daysInMonth (12 * 0 + mi))
      by (replace (12 * 0 + mi) with mi by lia; lia).
    subst d. split; [apply getDate_newDate; exact Hone|].
    split; [unfold newDate; rewrite Z.mul_comm; apply Z.mod_mul; discriminate|].
    split; [rewrite monthIndex_newDate by exact Hone; lia|].
    split; [apply before_later_month; lia|exact Hle].
  - assert (Hnil : generateRentChangeDates windowStartDate windowEndDate
                     frequencyMonths = []).
    { unfold generateRentChangeDates.
      destruct (Z.leb_spec frequencyMonths 0); [reflexivity|lia]. }
    rewrite Hnil in Hin. destruct Hin.
Qed.

(** X6. Every date of the schedule is the first of a month at midnight, in
    a month after that of the window start, strictly after the window start
    and on or before the window end. *)
Theorem X6_schedule_dates_are_firsts_inside_window
    (windowStartDate windowEndDate : Date) (frequencyMonths : Z) (d : Date) :
  In d (generateRentChangeDates windowStartDate windowEndDate frequencyMonths) ->
  getDate d = 1 /\
  d mod msPerDay = 0 /\
  monthIndex windowStartDate < monthIndex d /\
  windowStartDate < d <= windowEndDate.
Proof. apply generateRentChangeDates_fields. Qed.


(** ** Further properties of the rent-change applier *)

Section ApplierProperties.

Context {num : Type} `{JSNumber num}.

Lemma interval_count_split lease (rate : num) dates prev q r :
  match prev with Some p => p <= q | None => True end ->
  q <= r ->
  (length (filter (fun cd => inInterval prev q cd && rentChangeApplies lease rate cd)
             dates) +
   length (filter (fun cd => inInterval (Some q) r cd && rentChangeApplies lease rate cd)
             dates))%nat =
  length (filter (fun cd => inInterval prev r cd && rentChangeApplies lease rate cd)
            dates).
Proof.
  intros Hp Hq. induction dates as [|cd rest IH]; [reflexivity|].
  cbn [filter]. unfold inInterval in *.
  destruct prev as [p|];
    [destruct (Z.ltb_spec p cd)|];
    destruct (Z.leb_spec cd q), (Z.ltb_spec q cd), (Z.leb_spec cd r); try lia;
    destruct (rentChangeApplies lease rate cd); cbn [andb length]; lia.
Qed.

(** X8. Applying the changes of two adjoining intervals one after the other
    is applying the changes of their union: the rent carried from one due
    date to the next loses or repeats no change. *)
Theorem X8_adjoining_intervals_compose
    (currentRent rentChangeRate : num) (rentChangeDates : list Date)
    (previousDate : option Date) (middleDate upcomingDate leaseStartDate : Date) :
  match previousDate with Some p => p <= middleDate | None => True end ->
  middleDate <= upcomingDate ->
  applyAllApplicableRentChanges
    (applyAllApplicableRentChanges currentRent rentChangeRate rentChangeDates
       previousDate middleDate leaseStartDate)
    rentChangeRate rentChangeDates (Some middleDate) upcomingDate leaseStartDate =
  applyAllApplicableRentChanges currentRent rentChangeRate rentChangeDates
    previousDate upcomingDate leaseStartDate.
Proof.
  intros Hp Hq. rewrite !applyChanges_iter.
  rewrite <- (interval_count_split leaseStartDate rentChangeRate rentChangeDates
                previousDate middleDate upcomingDate Hp Hq).
  rewrite Nat.add_comm. symmetry. apply Nat.iter_add.
Qed.

(** X9. The applier returns the rent unchanged, whatever the schedule, when
    the interval is empty (the upcoming date is not after the previous one)
    or when the rate is neither above nor below zero. *)
Theorem X9_no_change_cases
    (currentRent rentChangeRate : num) (rentChangeDates : list Date)
    (previousDate : option Date) (upcomingDate leaseStartDate : Date) :
  (exists p, previousDate = Some p /\ upcomingDate <= p) \/
  (nltb (ofZ 0) rentChangeRate = false /\ nltb rentChangeRate (ofZ 0) = false) ->
  applyAllApplicableRentChanges currentRent rentChangeRate rentChangeDates
    previousDate upcomingDate leaseStartDate = currentRent.
Proof.
  intros Hc. rewrite applyChanges_iter.
  replace (filter
             (fun cd => inInterval previousDate upcomingDate cd &&
                        rentChangeApplies leaseStartDate rentChangeRate cd)
             rentChangeDates) with (@nil Date); [reflexivity|].
  symmetry. induction rentChangeDates as [|cd rest IH]; [reflexivity|].
  cbn [filter]. rewrite IH.
  destruct Hc as [(p & -> & Hle)|[Hpos Hneg]].
  - unfold inInterval. destruct (Z.ltb_spec p cd), (Z.leb_spec cd upcomingDate);
      try lia; reflexivity.
  - unfold rentChangeApplies. rewrite Hpos, Hneg, !Bool.andb_false_r.
    reflexivity.
Qed.

End ApplierProperties.

(** ** Further properties of the rent computation *)

Lemma dayOf_le a b : a <= b -> dayOf a <= dayOf b.
Proof. intros Hab. unfold dayOf. apply Z.div_le_mono; [reflexivity|exact Hab]. Qed.

Lemma monthIndex_le a b : a <= b -> monthIndex a <= monthIndex b.
Proof.
  intros Hab. apply dayOf_le in Hab.
  pose proof (monthIndex_spec a) as Ha. pose proof (monthIndex_spec b) as Hb.
  assert (Hlt : monthIndex a < monthIndex b + 1) by (apply monthStart_lt_inv; lia).
  lia.
Qed.

Lemma monthIndex_lt_date a b : monthIndex a < monthIndex b -> a < b.
Proof.
  intros Hlt. destruct (Z_lt_le_dec a b) as [|Hle]; [assumption|].
  apply monthIndex_le in Hle. lia.
Qed.

Lemma filter_none (A : Type) (q : A -> bool) (l : list A) :
  (forall a, In a l -> q a = false) -> filter q l = [].
Proof.
  induction l as [|a l IH]; intros Hq; [reflexivity|].
  cbn [filter]. rewrite (Hq a) by (left; reflexivity).
  apply IH. intros b Hb. apply Hq. right. exact Hb.
Qed.

Section ComputationProperties.

Context {num : Type} `{JSNumber num}.

(** With a rate that is not positive no change applies from the lease start
    on. *)
Lemma rentLevelAt_frozen (base : num) lease (rate : num) dates d :
  nltb (ofZ 0) rate = false -> lease <= d ->
  rentLevelAt base lease rate dates d = rentLevelAt base lease rate dates lease.
Proof.
  intros Hpos Hd. unfold rentLevelAt, changesUpTo. do 2 f_equal.
  apply filter_ext. intros cd. unfold rentChangeApplies. rewrite Hpos.
  destruct (Z.leb_spec cd d), (Z.leb_spec cd lease), (Z.leb_spec lease cd),
    (Z.ltb_spec cd lease); cbn [andb orb]; try reflexivity; lia.
Qed.

(** The second payment date when no clamp is due in the month of the lease
    start. *)
Lemma secondPayment_day (r : num) lease dueDay :
  1 <= dueDay ->
  (getDate lease < dueDay -> dueDay <= daysInMonth (monthIndex lease)) ->
  let second := snd (firstPayment r lease (getDate lease) dueDay) in
  getDate second = Z.min dueDay (daysInMonth (monthIndex second)) /\
  second mod msPerDay = 0.
Proof.
  intros Hd Hfit. cbn zeta. unfold firstPayment.
  destruct (Z.ltb_spec (getDate lease) dueDay) as [Hlt|Hge].
  - cbn [snd]. rewrite clampToLastDayOfMonth_id.
    specialize (Hfit Hlt).
    assert (Hin : 1 <= dueDay <= daysInMonth (12 * getFullYear lease + getMonth lease))
      by (rewrite year_month_index; lia).
    rewrite monthIndex_newDate, getDate_newDate by exact Hin.
    rewrite year_month_index. split; [lia|].
    unfold newDate. rewrite Z.mul_comm. apply Z.mod_mul. discriminate.
  - assert (Hn : snd (if getDate lease =? dueDay
                      then (r, nextMonthSameDueDay lease dueDay)
                      else (nmul r (nsub (ofZ 1)
                                      (ndiv (ofZ (getDate lease - dueDay)) (ofZ 30))),
                            nextMonthSameDueDay lease dueDay)) =
                 dueDateIn (monthIndex lease + 1) dueDay).
    { destruct (getDate lease =? dueDay); cbn [snd];
        apply nextMonthSameDueDay_dueDateIn. }
    rewrite Hn.
    destruct (dueDateIn_fields (monthIndex lease + 1) dueDay Hd) as (Hi & Hg & Hm).
    rewrite Hi. split; assumption.
Qed.

(** What the recurring loop contributes to the result, for a due day of at
    least 1: after the first-payment record, records that are not vacancy
    records, dated after the lease start on the second payment date or on a
    clamped due day of some month, with the rounded rent level of their
    date. *)
Lemma calculateMonthlyRent_records
    (baseMonthlyRent : num) (leaseStartDate windowStartDate windowEndDate : Date)
    (dayOfMonthRentDue rentRateChangeFrequency : Z) (rentChangeRate : num) :
  1 <= dayOfMonthRentDue ->
  let schedule :=
    generateRentChangeDates windowStartDate windowEndDate rentRateChangeFrequency in
  let level := rentLevelAt baseMonthlyRent leaseStartDate rentChangeRate schedule in
  let second :=
    snd (firstPayment (level leaseStartDate) leaseStartDate (getDate leaseStartDate)
           dayOfMonthRentDue) in
  exists rest,
    calculateMonthlyRent baseMonthlyRent leaseStartDate windowStartDate
      windowEndDate dayOfMonthRentDue rentRateChangeFrequency rentChangeRate =
    (if (windowStartDate <=? leaseStartDate) && (leaseStartDate <=? windowEndDate)
     then [firstPaymentRecord baseMonthlyRent leaseStartDate windowStartDate
             windowEndDate dayOfMonthRentDue rentRateChangeFrequency rentChangeRate]
     else []) ++ rest /\
    Forall
      (fun r =>
         rentAmount r = roundToTwo (level (rentDueDate r)) /\
         leaseStartDate < rentDueDate r /\
         (rentDueDate r = second \/
          exists mi, rentDueDate r = dueDateIn mi dayOfMonthRentDue))
      rest.
Proof.
  intros Hd schedule level second.
  set (pre := if (windowStartDate <=? leaseStartDate) && (leaseStartDate <=? windowEndDate)
              then [firstPaymentRecord baseMonthlyRent leaseStartDate windowStartDate
                      windowEndDate dayOfMonthRentDue rentRateChangeFrequency
                      rentChangeRate]
              else []).
  set (Q := fun r : MonthlyRentRecord num =>
    rentAmount r = roundToTwo (level (rentDueDate r)) /\
    leaseStartDate < rentDueDate r /\
    (rentDueDate r = second \/ exists mi, rentDueDate r = dueDateIn mi dayOfMonthRentDue)).
  destruct (Z_gt_le_dec windowStartDate windowEndDate) as [Hw|Hw].
  { exists []. rewrite calculateMonthlyRent_guards by tauto. split; [|constructor].
    subst pre. destruct (Z.leb_spec windowStartDate leaseStartDate),
      (Z.leb_spec leaseStartDate windowEndDate); cbn [andb app]; try reflexivity. lia. }
  destruct (Z_gt_le_dec leaseStartDate windowEndDate) as [Hl|Hl].
  { exists []. rewrite calculateMonthlyRent_guards by tauto. split; [|constructor].
    subst pre. destruct (Z.leb_spec windowStartDate leaseStartDate),
      (Z.leb_spec leaseStartDate windowEndDate); cbn [andb app]; try reflexivity. lia. }
  rewrite calculateMonthlyRent_run by assumption.
  set (P := fun st : LoopState num =>
    currentMonthlyRent st = level (previousDueDate st) /\
    previousDueDate st <= currentDueDate st /\
    leaseStartDate < currentDueDate st /\
    (currentDueDate st = second \/
     exists mi, currentDueDate st = dueDateIn mi dayOfMonthRentDue) /\
    exists rest, results st = pre ++ rest /\ Forall Q rest).
  enough (HP : P (rentLoop leaseStartDate windowStartDate windowEndDate
                    dayOfMonthRentDue rentChangeRate schedule 500
                    (startState baseMonthlyRent leaseStartDate windowStartDate
                       windowEndDate dayOfMonthRentDue rentRateChangeFrequency
                       rentChangeRate))).
  { destruct HP as (_ & _ & _ & _ & rest & Hres & Hall). exists rest.
    split; assumption. }
  apply rentLoop_invariant.
  - intros st (Hrent & Hord & Hafter & Hshape & rest & Hres & Hall) _.
    pose proof (nextMonthSameDueDay_gt (currentDueDate st) dayOfMonthRentDue Hd) as Hn.
    assert (Hnew : applyAllApplicableRentChanges (currentMonthlyRent st) rentChangeRate
                     schedule (Some (previousDueDate st)) (currentDueDate st)
                     leaseStartDate = level (currentDueDate st)).
    { rewrite Hrent. subst level. apply rentLevelAt_advance. exact Hord. }
    unfold P. cbn [loopBody results currentDueDate previousDueDate currentMonthlyRent].
    rewrite Hnew. split; [reflexivity|]. split; [lia|]. split; [lia|]. split.
    { right. exists (monthIndex (currentDueDate st) + 1).
      apply nextMonthSameDueDay_dueDateIn. }
    destruct ((windowStartDate <=? currentDueDate st) &&
              (currentDueDate st <=? windowEndDate)).
    + exists (rest ++ [{| vacancy := false;
                          rentAmount := roundToTwo (level (currentDueDate st));
                          rentDueDate := currentDueDate st |}]).
      split; [rewrite Hres, app_assoc; reflexivity|].
      apply Forall_app. split; [exact Hall|]. constructor; [|constructor].
      unfold Q. cbn [rentAmount rentDueDate]. split; [reflexivity|].
      split; assumption.
    + exists rest. split; assumption.
  - unfold P, startState.
    cbn [results currentDueDate previousDueDate currentMonthlyRent].
    rewrite rentLevelAt_initial. fold schedule. fold level. fold second.
    pose proof (secondPayment_gt (level leaseStartDate) leaseStartDate
                  dayOfMonthRentDue Hd) as Hs.
    fold second in Hs.
    split; [reflexivity|]. split; [lia|]. split; [exact Hs|].
    split; [left; reflexivity|].
    exists []. split; [|constructor]. rewrite app_nil_r. reflexivity.
Qed.

End ComputationProperties.

Section LoopProperties.

Context {num : Type} `{JSNumber num}.








(** X10. No returned record is a vacancy record. *)
Theorem X10_no_vacancy_record
    (baseMonthlyRent : num) (leaseStartDate windowStartDate windowEndDate : Date)
    (dayOfMonthRentDue rentRateChangeFrequency : Z) (rentChangeRate : num) :
  Forall (fun r => vacancy r = false)
    (calculateMonthlyRent baseMonthlyRent leaseStartDate windowStartDate
       windowEndDate dayOfMonthRentDue rentRateChangeFrequency rentChangeRate).
Proof.
  destruct (Z_gt_le_dec windowStartDate windowEndDate) as [Hw|Hw];
    [rewrite calculateMonthlyRent_guards by tauto; constructor|].
  destruct (Z_gt_le_dec leaseStartDate windowEndDate) as [Hl|Hl];
    [rewrite calculateMonthlyRent_guards by tauto; constructor|].
  rewrite calculateMonthlyRent_run by assumption.
  apply (rentLoop_invariant leaseStartDate windowStartDate windowEndDate
           dayOfMonthRentDue rentChangeRate _
           (fun st => Forall (fun r => vacancy r = false) (results st))).
  - intros st Hall _. cbn [loopBody results].
    destruct ((windowStartDate <=? currentDueDate st) &&
              (currentDueDate st <=? windowEndDate)); [|exact Hall].
    apply Forall_app. split; [exact Hall|]. repeat constructor.
  - unfold startState. cbn [results].
    destruct ((windowStartDate <=? leaseStartDate) && (leaseStartDate <=? windowEndDate));
      repeat constructor.
Qed.

(** X11. With a rate that is not positive (a decrease, or zero) and a due
    day of at least 1, the rent is frozen from the lease start on: every
    record after the first-payment record carries the same amount, the
    rounded rent level reached at the lease start. *)
Theorem X11_rent_frozen_after_lease_start
    (baseMonthlyRent : num) (leaseStartDate windowStartDate windowEndDate : Date)
    (dayOfMonthRentDue rentRateChangeFrequency : Z) (rentChangeRate : num) :
  nltb (ofZ 0) rentChangeRate = false ->
  1 <= dayOfMonthRentDue ->
  exists rest,
    calculateMonthlyRent baseMonthlyRent leaseStartDate windowStartDate
      windowEndDate dayOfMonthRentDue rentRateChangeFrequency rentChangeRate =
    (if (windowStartDate <=? leaseStartDate) && (leaseStartDate <=? windowEndDate)
     then [firstPaymentRecord baseMonthlyRent leaseStartDate windowStartDate
             windowEndDate dayOfMonthRentDue rentRateChangeFrequency rentChangeRate]
     else []) ++ rest /\
    Forall
      (fun r =>
         rentAmount r =
         roundToTwo
           (applyAllApplicableRentChanges baseMonthlyRent rentChangeRate
              (generateRentChangeDates windowStartDate windowEndDate
                 rentRateChangeFrequency)
              None leaseStartDate leaseStartDate))
      rest.
Proof.
  intros Hpos Hd.
  destruct (calculateMonthlyRent_records baseMonthlyRent leaseStartDate windowStartDate
              windowEndDate dayOfMonthRentDue rentRateChangeFrequency rentChangeRate Hd)
    as (rest & Hres & Hall).
  exists rest. split; [exact Hres|].
  eapply Forall_impl; [|exact Hall]. cbn beta. intros r (Hamount & Hafter & _).
  rewrite Hamount, rentLevelAt_initial. f_equal.
  apply rentLevelAt_frozen; [exact Hpos|lia].
Qed.

(** X12. The schedule is anchored to the window start, not to the lease
    start: no change is dated on or before the window start, so over any
    interval that ends on or before the window start the applier leaves the
    rent unchanged. A lease that starts on or before the window start
    therefore makes its first payment from the base rent. *)
Theorem X12_no_change_up_to_window_start
    (currentRent rentChangeRate : num) (windowStartDate windowEndDate : Date)
    (rentRateChangeFrequency : Z) (previousDate : option Date)
    (upcomingDate leaseStartDate : Date) :
  upcomingDate <= windowStartDate ->
  applyAllApplicableRentChanges currentRent rentChangeRate
    (generateRentChangeDates windowStartDate windowEndDate rentRateChangeFrequency)
    previousDate upcomingDate leaseStartDate = currentRent.
Proof.
  intros Hu. rewrite applyChanges_iter, filter_none; [reflexivity|].
  intros cd Hin. apply generateRentChangeDates_fields in Hin.
  destruct Hin as (_ & _ & _ & Hcd & _).
  unfold inInterval.
  destruct previousDate as [p|];
    [destruct (Z.ltb_spec p cd)|]; destruct (Z.leb_spec cd upcomingDate);
    try lia; reflexivity.
Qed.

(** X13. For a due day of at least 1 that, when it lies after the day of
    the lease start, still exists in the month of the lease start: every
    record after the first-payment record is due at midnight on the due day,
    clamped to the length of the record's own month. *)
Theorem X13_recurring_records_fall_on_clamped_due_day
    (baseMonthlyRent : num) (leaseStartDate windowStartDate windowEndDate : Date)
    (dayOfMonthRentDue rentRateChangeFrequency : Z) (rentChangeRate : num) :
  1 <= dayOfMonthRentDue ->
  (getDate leaseStartDate < dayOfMonthRentDue ->
   dayOfMonthRentDue <= daysInMonth (monthIndex leaseStartDate)) ->
  exists rest,
    calculateMonthlyRent baseMonthlyRent leaseStartDate windowStartDate
      windowEndDate dayOfMonthRentDue rentRateChangeFrequency rentChangeRate =
    (if (windowStartDate <=? leaseStartDate) && (leaseStartDate <=? windowEndDate)
     then [firstPaymentRecord baseMonthlyRent leaseStartDate windowStartDate
             windowEndDate dayOfMonthRentDue rentRateChangeFrequency rentChangeRate]
     else []) ++ rest /\
    Forall
      (fun r =>
         getDate (rentDueDate r) =
           Z.min dayOfMonthRentDue (daysInMonth (monthIndex (rentDueDate r))) /\
         rentDueDate r mod msPerDay = 0)
      rest.
Proof.
  intros Hd Hfit.
  destruct (calculateMonthlyRent_records baseMonthlyRent leaseStartDate windowStartDate
              windowEndDate dayOfMonthRentDue rentRateChangeFrequency rentChangeRate Hd)
    as (rest & Hres & Hall).
  exists rest. split; [exact Hres|].
  eapply Forall_impl; [|exact Hall]. cbn beta.
  intros r (_ & _ & [Hsecond|(mi & Hmi)]).
  - rewrite Hsecond. apply secondPayment_day; assumption.
  - rewrite Hmi. destruct (dueDateIn_fields mi dayOfMonthRentDue Hd) as (Hi & Hg & Hm).
    rewrite Hi. split; assumption.
Qed.

(** X14. For a due day of at least 1 and a window that ends fewer than 500
    months after the month of the lease start, the recurring loop stops only
    once the current due date is past the window end: the counter never
    stops it while a due date of the window remains. *)
Theorem X14_counter_does_not_cut_short_windows
    (baseMonthlyRent : num) (leaseStartDate windowStartDate windowEndDate : Date)
    (dayOfMonthRentDue rentRateChangeFrequency : Z) (rentChangeRate : num) :
  1 <= dayOfMonthRentDue ->
  monthIndex windowEndDate < monthIndex leaseStartDate + 500 ->
  currentDueDate
    (rentLoop leaseStartDate windowStartDate windowEndDate dayOfMonthRentDue
       rentChangeRate
       (generateRentChangeDates windowStartDate windowEndDate rentRateChangeFrequency)
       500
       (startState baseMonthlyRent leaseStartDate windowStartDate windowEndDate
          dayOfMonthRentDue rentRateChangeFrequency rentChangeRate))
  > windowEndDate.
Proof.
  intros Hd Hshort.
  set (start := startState baseMonthlyRent leaseStartDate windowStartDate windowEndDate
                  dayOfMonthRentDue rentRateChangeFrequency rentChangeRate).
  set (dates := generateRentChangeDates windowStartDate windowEndDate
                  rentRateChangeFrequency).
  pose proof (rentLoop_exit leaseStartDate windowStartDate windowEndDate
                dayOfMonthRentDue rentChangeRate dates 500 start) as Hex.
  cbn zeta in Hex. destruct Hex as [_ [Hbreak|Hcount]]; [exact Hbreak|].
  assert (Hinv : monthIndex leaseStartDate +
                 iterationSafety
                   (rentLoop leaseStartDate windowStartDate windowEndDate
                      dayOfMonthRentDue rentChangeRate dates 500 start)
                 <= monthIndex
                      (currentDueDate
                         (rentLoop leaseStartDate windowStartDate windowEndDate
                            dayOfMonthRentDue rentChangeRate dates 500 start))).
  { apply (rentLoop_invariant leaseStartDate windowStartDate windowEndDate
             dayOfMonthRentDue rentChangeRate dates
             (fun st => monthIndex leaseStartDate + iterationSafety st
                        <= monthIndex (currentDueDate st))).
    - intros st Hst _. cbn [loopBody iterationSafety currentDueDate].
      rewrite nextMonthSameDueDay_dueDateIn.
      destruct (dueDateIn_fields (monthIndex (currentDueDate st) + 1)
                  dayOfMonthRentDue Hd) as (Hi & _).
      rewrite Hi. lia.
    - subst start. cbn [startState iterationSafety currentDueDate].
      pose proof (secondPayment_gt
        (applyAllApplicableRentChanges baseMonthlyRent rentChangeRate
           (generateRentChangeDates windowStartDate windowEndDate
              rentRateChangeFrequency) None leaseStartDate leaseStartDate)
        leaseStartDate dayOfMonthRentDue Hd) as Hs.
      apply Z.lt_le_incl, monthIndex_le in Hs. lia. }
  rewrite Hcount in Hinv. change (iterationSafety start) with 0 in Hinv.
  apply Z.lt_gt. apply monthIndex_lt_date. lia.
Qed.


End LoopProperties.

(** ** Further properties in exact arithmetic *)

Lemma this_Q2Qc q : (this (Q2Qc q) == q)%Q.
Proof. cbn [this Q2Qc]. apply Qred_correct. Qed.

Ltac qc_to_q :=
  unfold Qcle, Qclt, Qcdiv, Qcminus, Qcplus, Qcmult, Qcopp, Qcinv in *;
  repeat rewrite this_Q2Qc in *.

Lemma fraction_bounds z :
  0 <= z <= 30 ->
  (0 <= Q2Qc (inject_Z z) / Q2Qc (inject_Z 30) <= 1)%Qc.
Proof.
  intros Hz. qc_to_q.
  assert (H0 : (inject_Z 0 <= inject_Z z)%Q) by (rewrite <- Zle_Qle; lia).
  assert (H30 : (inject_Z z <= inject_Z 30)%Q) by (rewrite <- Zle_Qle; lia).
  change (inject_Z 0) with 0%Q in H0.
  change (this 0%Qc) with 0%Q. change (this 1%Qc) with 1%Q.
  change (inject_Z 30) with 30%Q in *.
  split.
  - apply Qle_shift_div_l; [reflexivity|]. lra.
  - apply Qle_shift_div_r; [reflexivity|]. lra.
Qed.

Lemma scale_bounds (r f : Qc) :
  (0 <= r)%Qc -> (0 <= f)%Qc -> (f <= 1)%Qc -> (0 <= r * f)%Qc /\ (r * f <= r)%Qc.
Proof.
  intros Hr H0 H1. split.
  - rewrite <- (Qcmult_0_l f). apply Qcmult_le_compat_r; assumption.
  - rewrite Qcmult_comm. rewrite <- (Qcmult_1_l r) at 2.
    apply Qcmult_le_compat_r; assumption.
Qed.

(** X16. In exact arithmetic, for a due day in 1..31 and a rent that is not
    negative, the first payment lies between zero and the full rent: the
    proration never charges more than one month and never goes negative (it
    is zero for a lease that starts on the 31st with due day 1). *)
Theorem X16_first_payment_between_zero_and_rent (r : Qc) (leaseStartDate : Date) (dueDay : Z) :
  1 <= dueDay <= 31 ->
  (0 <= r)%Qc ->
  (0 <= fst (firstPayment r leaseStartDate (getDate leaseStartDate) dueDay))%Qc /\
  (fst (firstPayment r leaseStartDate (getDate leaseStartDate) dueDay) <= r)%Qc.
Proof.
  intros Hd Hr.
  pose proof (getDate_bounds leaseStartDate) as Hs.
  pose proof (daysInMonth_bounds (monthIndex leaseStartDate)) as Hb.
  unfold firstPayment.
  destruct (Z.ltb_spec (getDate leaseStartDate) dueDay) as [Hlt|Hge].
  - cbn [fst nmul ndiv ofZ QcNumber].
    destruct (fraction_bounds (dueDay - getDate leaseStartDate)) as [H0 H1]; [lia|].
    apply scale_bounds; assumption.
  - destruct (Z.eqb_spec (getDate leaseStartDate) dueDay) as [Heq|Hne].
    + cbn [fst]. split; [exact Hr|apply Qcle_refl].
    + cbn [fst nmul ndiv nsub ofZ QcNumber].
      destruct (fraction_bounds (getDate leaseStartDate - dueDay)) as [H0 H1]; [lia|].
      change (Q2Qc (inject_Z 1)) with 1%Qc.
      apply scale_bounds; [exact Hr| |].
      * apply Qcle_minus_iff in H1. exact H1.
      * apply Qcle_minus_iff.
        replace (1 + - (1 - Q2Qc (inject_Z (getDate leaseStartDate - dueDay)) /
                            Q2Qc (inject_Z 30)))%Qc
          with (Q2Qc (inject_Z (getDate leaseStartDate - dueDay)) / Q2Qc (inject_Z 30))%Qc
          by ring.
        exact H0.
Qed.

Lemma Qfloor_unique (x : Q) (n : Z) :
  (inject_Z n <= x)%Q -> (x < inject_Z (n + 1))%Q -> Qfloor x = n.
Proof.
  intros Hle Hlt.
  pose proof (Qfloor_le x) as H1. pose proof (Qlt_floor x) as H2.
  assert (Ha : (inject_Z n < inject_Z (Qfloor x + 1))%Q) by lra.
  assert (Hb : (inject_Z (Qfloor x) < inject_Z (n + 1))%Q) by lra.
  rewrite <- Zlt_Qlt in Ha, Hb. lia.
Qed.

(** X17. In exact arithmetic [roundToTwo] gives a whole number of
    hundredths within half a hundredth of its argument, an exact half going
    up, and rounding a rounded amount again changes nothing. *)
Theorem X17_roundToTwo_nearest_cent (q : Qc) :
  (q - Q2Qc (1 # 200) < roundToTwo q)%Qc /\
  (roundToTwo q <= q + Q2Qc (1 # 200))%Qc /\
  (exists n : Z, roundToTwo q = Q2Qc (n # 100)) /\
  roundToTwo (roundToTwo q) = roundToTwo q.
Proof.
  unfold roundToTwo. cbn [nmul ndiv ofZ mathRound QcNumber].
  set (n := Qfloor (q * Q2Qc (inject_Z 100) + Q2Qc (1 # 2))%Qc).
  assert (Hx : (this (q * Q2Qc (inject_Z 100) + Q2Qc (1 # 2))%Qc == this q * 100 + (1 # 2))%Q).
  { unfold Qcplus, Qcmult. rewrite !this_Q2Qc. reflexivity. }
  pose proof (Qfloor_le (q * Q2Qc (inject_Z 100) + Q2Qc (1 # 2))%Qc) as Hle.
  pose proof (Qlt_floor (q * Q2Qc (inject_Z 100) + Q2Qc (1 # 2))%Qc) as Hlt.
  fold n in Hle, Hlt. rewrite Hx in Hle, Hlt.
  rewrite inject_Z_plus in Hlt. change (inject_Z 1) with 1%Q in Hlt.
  assert (Hr : (this (Q2Qc (inject_Z n) / Q2Qc (inject_Z 100))%Qc == inject_Z n / 100)%Q).
  { unfold Qcdiv, Qcmult, Qcinv. rewrite !this_Q2Qc. reflexivity. }
  split; [|split; [|split]].
  - unfold Qclt, Qcminus, Qcplus, Qcopp. rewrite Hr, !this_Q2Qc.
    apply Qlt_shift_div_l; [reflexivity|]. lra.
  - unfold Qcle, Qcplus. rewrite Hr, !this_Q2Qc.
    apply Qle_shift_div_r; [reflexivity|]. lra.
  - exists n. apply Qc_is_canon. rewrite Hr, this_Q2Qc.
    unfold Qeq, Qdiv, Qmult, Qinv, inject_Z. cbn. lia.
  - f_equal. f_equal. f_equal. f_equal. apply Qfloor_unique.
    + unfold Qcplus, Qcmult. rewrite !this_Q2Qc, Hr.
      change (inject_Z 100) with 100%Q. field_simplify. lra.
    + unfold Qcplus, Qcmult. rewrite !this_Q2Qc, Hr, inject_Z_plus.
      change (inject_Z 100) with 100%Q. change (inject_Z 1) with 1%Q. field_simplify. lra.
Qed.

Lemma filter_length_le (A : Type) (p q : A -> bool) (l : list A) :
  (forall a, p a = true -> q a = true) ->
  (length (filter p l) <= length (filter q l))%nat.
Proof.
  intros Hpq. induction l as [|a l IH]; [apply Nat.le_refl|].
  cbn [filter]. destruct (p a) eqn:Ep.
  - rewrite (Hpq a Ep). cbn [length]. lia.
  - destruct (q a); cbn [length]; lia.
Qed.

Lemma power_grows (base c : Qc) (a k : nat) :
  (0 <= base)%Qc -> (1 <= c)%Qc ->
  (base * c ^ a <= base * c ^ (a + k))%Qc.
Proof.
  intros Hb Hc. induction k as [|k IH].
  - rewrite Nat.add_0_r. apply Qcle_refl.
  - eapply Qcle_trans; [exact IH|].
    rewrite Nat.add_succ_r. cbn [Qcpower].
    assert (H0 : (0 <= c)%Qc) by (eapply Qcle_trans; [|exact Hc]; discriminate).
    assert (Hp : (0 <= base * c ^ (a + k))%Qc).
    { rewrite <- (Qcmult_0_l (c ^ (a + k))).
      apply Qcmult_le_compat_r; [exact Hb|apply Qcpower_pos; exact H0]. }
    replace (base * (c * c ^ (a + k)))%Qc with (c * (base * c ^ (a + k)))%Qc by ring.
    rewrite <- (Qcmult_1_l (base * c ^ (a + k))) at 1.
    apply Qcmult_le_compat_r; assumption.
Qed.

(** X18. In exact arithmetic, with a base rent and a rate that are not
    negative, the rent the applier reaches from the base rent never
    decreases as the date it runs up to moves later. *)
Theorem X18_rent_level_never_decreases_with_nonnegative_rate
    (base : Qc) (leaseStartDate : Date) (rate : Qc) (schedule : list Date)
    (d1 d2 : Date) :
  (0 <= base)%Qc -> (0 <= rate)%Qc -> d1 <= d2 ->
  (applyAllApplicableRentChanges base rate schedule None d1 leaseStartDate <=
   applyAllApplicableRentChanges base rate schedule None d2 leaseStartDate)%Qc.
Proof.
  intros Hb Hr Hd. rewrite !rentLevelAt_initial, !rentLevelAt_power.
  assert (Hlen : (length (changesUpTo leaseStartDate rate schedule d1) <=
                  length (changesUpTo leaseStartDate rate schedule d2))%nat).
  { unfold changesUpTo. apply filter_length_le. intros cd Hcd.
    apply andb_prop in Hcd. destruct Hcd as [Hle Happ]. rewrite Happ, Bool.andb_true_r.
    apply Z.leb_le in Hle. apply Z.leb_le. lia. }
  replace (length (changesUpTo leaseStartDate rate schedule d2))
    with (length (changesUpTo leaseStartDate rate schedule d1) +
          (length (changesUpTo leaseStartDate rate schedule d2) -
           length (changesUpTo leaseStartDate rate schedule d1)))%nat by lia.
  apply power_grows; [exact Hb|].
  apply Qcle_minus_iff. replace (1 + rate + - (1))%Qc with rate by ring. exact Hr.
Qed.

Lemma power_shrinks (base c : Qc) (a k : nat) :
  (0 <= base)%Qc -> (0 <= c)%Qc -> (c <= 1)%Qc ->
  (0 <= base * c ^ (a + k))%Qc /\ (base * c ^ (a + k) <= base * c ^ a)%Qc.
Proof.
  intros Hb H0 H1.
  assert (Hp : forall n, (0 <= base * c ^ n)%Qc).
  { intros n. rewrite <- (Qcmult_0_l (c ^ n)).
    apply Qcmult_le_compat_r; [exact Hb|apply Qcpower_pos; exact H0]. }
  split; [apply Hp|].
  induction k as [|k IH].
  - rewrite Nat.add_0_r. apply Qcle_refl.
  - eapply Qcle_trans; [|exact IH].
    rewrite Nat.add_succ_r. cbn [Qcpower].
    replace (base * (c * c ^ (a + k)))%Qc with (c * (base * c ^ (a + k)))%Qc by ring.
    rewrite <- (Qcmult_1_l (base * c ^ (a + k))) at 2.
    apply Qcmult_le_compat_r; [exact H1|apply Hp].
Qed.

(** X19. In exact arithmetic, with a base rent that is not negative and a
    rate between -1 and 0, the rent the applier reaches from the base rent
    never increases as the date it runs up to moves later, never exceeds the
    base rent and never goes below zero. *)
Theorem X19_rent_level_never_increases_with_decrease_rate
    (base : Qc) (leaseStartDate : Date) (rate : Qc) (schedule : list Date)
    (d1 d2 : Date) :
  (0 <= base)%Qc -> (- (1) <= rate)%Qc -> (rate <= 0)%Qc -> d1 <= d2 ->
  (0 <= applyAllApplicableRentChanges base rate schedule None d2 leaseStartDate)%Qc /\
  (applyAllApplicableRentChanges base rate schedule None d2 leaseStartDate <=
   applyAllApplicableRentChanges base rate schedule None d1 leaseStartDate)%Qc /\
  (applyAllApplicableRentChanges base rate schedule None d1 leaseStartDate <= base)%Qc.
Proof.
  intros Hb Hlo Hhi Hd. rewrite !rentLevelAt_initial, !rentLevelAt_power.
  assert (Hlen : (length (changesUpTo leaseStartDate rate schedule d1) <=
                  length (changesUpTo leaseStartDate rate schedule d2))%nat).
  { unfold changesUpTo. apply filter_length_le. intros cd Hcd.
    apply andb_prop in Hcd. destruct Hcd as [Hle Happ]. rewrite Happ, Bool.andb_true_r.
    apply Z.leb_le in Hle. apply Z.leb_le. lia. }
  assert (H0 : (0 <= 1 + rate)%Qc).
  { apply Qcle_minus_iff in Hlo. replace (rate + - - (1))%Qc with (1 + rate)%Qc in Hlo by ring.
    exact Hlo. }
  assert (H1 : (1 + rate <= 1)%Qc).
  { apply Qcle_minus_iff in Hhi. apply Qcle_minus_iff.
    replace (1 + - (1 + rate))%Qc with (0 + - rate)%Qc by ring. exact Hhi. }
  replace (length (changesUpTo leaseStartDate rate schedule d2))
    with (length (changesUpTo leaseStartDate rate schedule d1) +
          (length (changesUpTo leaseStartDate rate schedule d2) -
           length (changesUpTo leaseStartDate rate schedule d1)))%nat by lia.
  destruct (power_shrinks base (1 + rate) (length (changesUpTo leaseStartDate rate schedule d1))
              (length (changesUpTo leaseStartDate rate schedule d2) -
               length (changesUpTo leaseStartDate rate schedule d1)) Hb H0 H1) as [Ha Hb'].
  split; [exact Ha|]. split; [exact Hb'|].
  destruct (power_shrinks base (1 + rate) 0
              (length (changesUpTo leaseStartDate rate schedule d1)) Hb H0 H1) as [_ Hc].
  cbn [Nat.add Qcpower] in Hc. rewrite Qcmult_1_r in Hc. exact Hc.
Qed.

(** ** Instances of the further conditional properties *)

Lemma X2_next_month_fields_witness :
  1 <= 31 /\
  getFullYear (nextMonthSameDueDay (ymd 2023 12 31) 31) =
    getFullYear (ymd 2023 12 31) + 1 /\
  getMonth (nextMonthSameDueDay (ymd 2023 12 31) 31) = 0 /\
  ymd 2023 12 31 < nextMonthSameDueDay (ymd 2023 12 31) 31.
Proof.
  assert (Hd : 1 <= 31) by lia.
  assert (Hm : getMonth (ymd 2023 12 31) = 11) by (vm_compute; reflexivity).
  pose proof (X2_next_month_fields (ymd 2023 12 31) 31 Hd) as Hx. cbv zeta in Hx.
  destruct Hx as (_ & Hdec & _ & _ & Hlt). destruct (Hdec Hm) as [Hy Hmo].
  split; [exact Hd|]. split; [exact Hy|]. split; [exact Hmo|exact Hlt].
Defined.

Lemma X3_nonpositive_day_does_not_advance_witness :
  0 <= 0 /\
  monthIndex (nextMonthSameDueDay (ymd 2023 1 31) 0) <= monthIndex (ymd 2023 1 31).
Proof.
  assert (Hd : 0 <= 0) by lia.
  split; [exact Hd|].
  exact (X3_nonpositive_day_does_not_advance (ymd 2023 1 31) 0 Hd).
Defined.

Lemma X4_due_dates_do_not_drift_witness :
  1 <= 31 /\
  getDate (Nat.iter 3 (fun c => nextMonthSameDueDay c 31) (ymd 2023 1 31)) =
    Z.min 31 (daysInMonth (monthIndex (ymd 2023 1 31) + Z.of_nat 3)).
Proof.
  assert (Hd : 1 <= 31) by lia.
  pose proof (X4_due_dates_do_not_drift (ymd 2023 1 31) 31 2 Hd) as Hx. cbv zeta in Hx.
  split; [exact Hd|]. exact (proj2 (proj2 Hx)).
Defined.

Lemma X6_schedule_dates_are_firsts_inside_window_witness :
  In (ymd 2023 6 1) (generateRentChangeDates (ymd 2023 4 1) (ymd 2023 8 31) 1) /\
  getDate (ymd 2023 6 1) = 1 /\
  ymd 2023 6 1 mod msPerDay = 0 /\
  monthIndex (ymd 2023 4 1) < monthIndex (ymd 2023 6 1) /\
  ymd 2023 4 1 < ymd 2023 6 1 <= ymd 2023 8 31.
Proof.
  assert (Hin : In (ymd 2023 6 1)
                  (generateRentChangeDates (ymd 2023 4 1) (ymd 2023 8 31) 1))
    by (vm_compute; right; left; reflexivity).
  split; [exact Hin|].
  exact (X6_schedule_dates_are_firsts_inside_window (ymd 2023 4 1) (ymd 2023 8 31) 1
           (ymd 2023 6 1) Hin).
Defined.


Lemma X8_adjoining_intervals_compose_witness :
  ymd 2023 1 15 <= ymd 2023 3 15 /\
  ymd 2023 3 15 <= ymd 2023 6 15 /\
  applyAllApplicableRentChanges
    (applyAllApplicableRentChanges (Q2Qc 100) (Q2Qc (1 # 10))
       (generateRentChangeDates (ymd 2023 1 1) (ymd 2023 12 31) 1)
       (Some (ymd 2023 1 15)) (ymd 2023 3 15) (ymd 2023 1 1))
    (Q2Qc (1 # 10)) (generateRentChangeDates (ymd 2023 1 1) (ymd 2023 12 31) 1)
    (Some (ymd 2023 3 15)) (ymd 2023 6 15) (ymd 2023 1 1) =
  applyAllApplicableRentChanges (Q2Qc 100) (Q2Qc (1 # 10))
    (generateRentChangeDates (ymd 2023 1 1) (ymd 2023 12 31) 1)
    (Some (ymd 2023 1 15)) (ymd 2023 6 15) (ymd 2023 1 1).
Proof.
  assert (Hp : ymd 2023 1 15 <= ymd 2023 3 15) by (vm_compute; discriminate).
  assert (Hq : ymd 2023 3 15 <= ymd 2023 6 15) by (vm_compute; discriminate).
  split; [exact Hp|]. split; [exact Hq|].
  exact (X8_adjoining_intervals_compose (Q2Qc 100) (Q2Qc (1 # 10))
           (generateRentChangeDates (ymd 2023 1 1) (ymd 2023 12 31) 1)
           (Some (ymd 2023 1 15)) (ymd 2023 3 15) (ymd 2023 6 15) (ymd 2023 1 1) Hp Hq).
Defined.

Lemma X9_no_change_cases_witness :
  ((exists p, Some (ymd 2023 1 15) = Some p /\ ymd 2023 6 15 <= p) \/
   (nltb (ofZ 0) (Q2Qc 0) = false /\ nltb (Q2Qc 0) (ofZ 0) = false)) /\
  applyAllApplicableRentChanges (Q2Qc 100) (Q2Qc 0)
    (generateRentChangeDates (ymd 2023 1 1) (ymd 2023 12 31) 1)
    (Some (ymd 2023 1 15)) (ymd 2023 6 15) (ymd 2023 1 1) = Q2Qc 100.
Proof.
  assert (Hc : (exists p, Some (ymd 2023 1 15) = Some p /\ ymd 2023 6 15 <= p) \/
               (nltb (ofZ 0) (Q2Qc 0) = false /\ nltb (Q2Qc 0) (ofZ 0) = false))
    by (right; split; vm_compute; reflexivity).
  split; [exact Hc|].
  exact (X9_no_change_cases (Q2Qc 100) (Q2Qc 0)
           (generateRentChangeDates (ymd 2023 1 1) (ymd 2023 12 31) 1)
           (Some (ymd 2023 1 15)) (ymd 2023 6 15) (ymd 2023 1 1) Hc).
Defined.

Lemma X11_rent_frozen_after_lease_start_witness :
  nltb (ofZ 0) (Q2Qc (-1 # 10)) = false /\
  1 <= 15 /\
  exists rest,
    calculateMonthlyRent (Q2Qc 300) (ymd 2023 6 15) (ymd 2023 4 1) (ymd 2023 8 31)
      15 1 (Q2Qc (-1 # 10)) =
    (if (ymd 2023 4 1 <=? ymd 2023 6 15) && (ymd 2023 6 15 <=? ymd 2023 8 31)
     then [firstPaymentRecord (Q2Qc 300) (ymd 2023 6 15) (ymd 2023 4 1)
             (ymd 2023 8 31) 15 1 (Q2Qc (-1 # 10))]
     else []) ++ rest /\
    Forall
      (fun r =>
         rentAmount r =
         roundToTwo
           (applyAllApplicableRentChanges (Q2Qc 300) (Q2Qc (-1 # 10))
              (generateRentChangeDates (ymd 2023 4 1) (ymd 2023 8 31) 1)
              None (ymd 2023 6 15) (ymd 2023 6 15)))
      rest.
Proof.
  assert (Hr : nltb (ofZ 0) (Q2Qc (-1 # 10)) = false) by (vm_compute; reflexivity).
  assert (Hd : 1 <= 15) by lia.
  split; [exact Hr|]. split; [exact Hd|].
  exact (X11_rent_frozen_after_lease_start (Q2Qc 300) (ymd 2023 6 15) (ymd 2023 4 1)
           (ymd 2023 8 31) 15 1 (Q2Qc (-1 # 10)) Hr Hd).
Defined.

Lemma X12_no_change_up_to_window_start_witness :
  ymd 2023 1 1 <= ymd 2023 4 1 /\
  applyAllApplicableRentChanges (Q2Qc 300) (Q2Qc (-1 # 10))
    (generateRentChangeDates (ymd 2023 4 1) (ymd 2023 8 31) 1)
    None (ymd 2023 1 1) (ymd 2023 1 1) = Q2Qc 300.
Proof.
  assert (Hu : ymd 2023 1 1 <= ymd 2023 4 1) by (vm_compute; discriminate).
  split; [exact Hu|].
  exact (X12_no_change_up_to_window_start (Q2Qc 300) (Q2Qc (-1 # 10)) (ymd 2023 4 1)
           (ymd 2023 8 31) 1 None (ymd 2023 1 1) (ymd 2023 1 1) Hu).
Defined.

Lemma X13_recurring_records_fall_on_clamped_due_day_witness :
  1 <= 31 /\
  (getDate (ymd 2023 1 31) < 31 -> 31 <= daysInMonth (monthIndex (ymd 2023 1 31))) /\
  exists rest,
    calculateMonthlyRent (Q2Qc 100) (ymd 2023 1 31) (ymd 2023 1 1) (ymd 2023 4 30)
      31 0 (Q2Qc 0) =
    (if (ymd 2023 1 1 <=? ymd 2023 1 31) && (ymd 2023 1 31 <=? ymd 2023 4 30)
     then [firstPaymentRecord (Q2Qc 100) (ymd 2023 1 31) (ymd 2023 1 1)
             (ymd 2023 4 30) 31 0 (Q2Qc 0)]
     else []) ++ rest /\
    Forall
      (fun r =>
         getDate (rentDueDate r) =
           Z.min 31 (daysInMonth (monthIndex (rentDueDate r))) /\
         rentDueDate r mod msPerDay = 0)
      rest.
Proof.
  assert (Hd : 1 <= 31) by lia.
  assert (Hfit : getDate (ymd 2023 1 31) < 31 ->
                 31 <= daysInMonth (monthIndex (ymd 2023 1 31)))
    by (intros _; vm_compute; discriminate).
  split; [exact Hd|]. split; [exact Hfit|].
  exact (X13_recurring_records_fall_on_clamped_due_day (Q2Qc 100) (ymd 2023 1 31)
           (ymd 2023 1 1) (ymd 2023 4 30) 31 0 (Q2Qc 0) Hd Hfit).
Defined.

Lemma X14_counter_does_not_cut_short_windows_witness :
  1 <= 1 /\
  monthIndex (ymd 2023 3 31) < monthIndex (ymd 2023 1 1) + 500 /\
  currentDueDate
    (rentLoop (ymd 2023 1 1) (ymd 2023 1 1) (ymd 2023 3 31) 1 (Q2Qc (1 # 10))
       (generateRentChangeDates (ymd 2023 1 1) (ymd 2023 3 31) 1) 500
       (startState (Q2Qc 100) (ymd 2023 1 1) (ymd 2023 1 1) (ymd 2023 3 31) 1 1
          (Q2Qc (1 # 10))))
  > ymd 2023 3 31.
Proof.
  assert (Hd : 1 <= 1) by lia.
  assert (Hs : monthIndex (ymd 2023 3 31) < monthIndex (ymd 2023 1 1) + 500)
    by (vm_compute; reflexivity).
  split; [exact Hd|]. split; [exact Hs|].
  exact (X14_counter_does_not_cut_short_windows (Q2Qc 100) (ymd 2023 1 1) (ymd 2023 1 1)
           (ymd 2023 3 31) 1 1 (Q2Qc (1 # 10)) Hd Hs).
Defined.


Lemma X16_first_payment_between_zero_and_rent_witness :
  1 <= 1 <= 31 /\
  (0 <= Q2Qc 100)%Qc /\
  (0 <= fst (firstPayment (Q2Qc 100) (ymd 2023 1 31) (getDate (ymd 2023 1 31)) 1))%Qc /\
  (fst (firstPayment (Q2Qc 100) (ymd 2023 1 31) (getDate (ymd 2023 1 31)) 1)
   <= Q2Qc 100)%Qc.
Proof.
  assert (Hd : 1 <= 1 <= 31) by lia.
  assert (Hr : (0 <= Q2Qc 100)%Qc) by (vm_compute; discriminate).
  split; [exact Hd|]. split; [exact Hr|].
  exact (X16_first_payment_between_zero_and_rent (Q2Qc 100) (ymd 2023 1 31) 1 Hd Hr).
Defined.

Lemma X18_rent_level_never_decreases_with_nonnegative_rate_witness :
  (0 <= Q2Qc 100)%Qc /\
  (0 <= Q2Qc (1 # 10))%Qc /\
  ymd 2023 2 15 <= ymd 2023 3 15 /\
  (applyAllApplicableRentChanges (Q2Qc 100) (Q2Qc (1 # 10))
     (generateRentChangeDates (ymd 2023 1 1) (ymd 2023 3 31) 1) None (ymd 2023 2 15)
     (ymd 2023 1 1) <=
   applyAllApplicableRentChanges (Q2Qc 100) (Q2Qc (1 # 10))
     (generateRentChangeDates (ymd 2023 1 1) (ymd 2023 3 31) 1) None (ymd 2023 3 15)
     (ymd 2023 1 1))%Qc.
Proof.
  assert (Hb : (0 <= Q2Qc 100)%Qc) by (vm_compute; discriminate).
  assert (Hr : (0 <= Q2Qc (1 # 10))%Qc) by (vm_compute; discriminate).
  assert (Hd : ymd 2023 2 15 <= ymd 2023 3 15) by (vm_compute; discriminate).
  split; [exact Hb|]. split; [exact Hr|]. split; [exact Hd|].
  exact (X18_rent_level_never_decreases_with_nonnegative_rate (Q2Qc 100) (ymd 2023 1 1)
           (Q2Qc (1 # 10)) (generateRentChangeDates (ymd 2023 1 1) (ymd 2023 3 31) 1)
           (ymd 2023 2 15) (ymd 2023 3 15) Hb Hr Hd).
Defined.

Lemma X19_rent_level_never_increases_with_decrease_rate_witness :
  (0 <= Q2Qc 300)%Qc /\
  (- (1) <= Q2Qc (-1 # 10))%Qc /\
  (Q2Qc (-1 # 10) <= 0)%Qc /\
  ymd 2023 5 15 <= ymd 2023 6 15 /\
  (applyAllApplicableRentChanges (Q2Qc 300) (Q2Qc (-1 # 10))
     (generateRentChangeDates (ymd 2023 4 1) (ymd 2023 8 31) 1) None (ymd 2023 6 15)
     (ymd 2023 6 15) <=
   applyAllApplicableRentChanges (Q2Qc 300) (Q2Qc (-1 # 10))
     (generateRentChangeDates (ymd 2023 4 1) (ymd 2023 8 31) 1) None (ymd 2023 5 15)
     (ymd 2023 6 15))%Qc.
Proof.
  assert (Hb : (0 <= Q2Qc 300)%Qc) by (vm_compute; discriminate).
  assert (Hlo : (- (1) <= Q2Qc (-1 # 10))%Qc) by (vm_compute; discriminate).
  assert (Hhi : (Q2Qc (-1 # 10) <= 0)%Qc) by (vm_compute; discriminate).
  assert (Hd : ymd 2023 5 15 <= ymd 2023 6 15) by (vm_compute; discriminate).
  split; [exact Hb|]. split; [exact Hlo|]. split; [exact Hhi|]. split; [exact Hd|].
  exact (proj1 (proj2
    (X19_rent_level_never_increases_with_decrease_rate (Q2Qc 300) (ymd 2023 6 15)
       (Q2Qc (-1 # 10)) (generateRentChangeDates (ymd 2023 4 1) (ymd 2023 8 31) 1)
       (ymd 2023 5 15) (ymd 2023 6 15) Hb Hlo Hhi Hd))).
Defined.

(** ** The schedule generator on binary64 counters *)

Module Counters64Facts.

Lemma round64_exact z : Z.abs z <= 2 ^ 53 -> round64 z = z.
Proof.
  intros Hz. unfold round64. destruct (Z.leb_spec (Z.abs z) (2 ^ 53)); [reflexivity|lia].
Qed.

(** Within 2^53 the binary64 carry loop ends and is the integer one. *)
Lemma carryMonths64_spec fuel : forall year month,
  - 2 ^ 53 <= year -> 0 <= month <= 2 ^ 53 -> 12 * year + month <= 12 * 2 ^ 53 ->
  month / 12 < Z.of_nat fuel ->
  carryMonths64 fuel year month = Some (year + month / 12, month mod 12).
Proof.
  change (2 ^ 53) with 9007199254740992.
  induction fuel as [|fuel IH]; intros year month Hy Hm Hs Hf.
  - assert (0 <= month / 12) by (apply Z.div_pos; lia). lia.
  - cbn [carryMonths64]. destruct (Z.gtb_spec month 11) as [Hgt|Hle].
    + rewrite (round64_exact (year + 1)), (round64_exact (month - 12))
        by (change (2 ^ 53) with 9007199254740992; lia).
      rewrite IH; [|lia|lia|lia|Z.div_mod_to_equations; lia].
      f_equal. f_equal; Z.div_mod_to_equations; lia.
    + f_equal. f_equal; Z.div_mod_to_equations; lia.
Qed.

Lemma carryMonths64_exact fuel year month :
  - 2 ^ 53 <= year -> 0 <= month <= 2 ^ 53 -> 12 * year + month <= 12 * 2 ^ 53 ->
  month / 12 < Z.of_nat fuel ->
  carryMonths64 fuel year month = Some (carryMonths (carryFuel month) year month).
Proof.
  intros Hy Hm Hs Hf. rewrite carryMonths64_spec by assumption.
  rewrite carryMonths_spec by lia. reflexivity.
Qed.

(** A month counter that binary64 subtraction of 12 leaves unchanged never
    lets the carry loop end. *)
Lemma carryMonths64_never_ends s :
  (s >? 11) = true -> round64 (s - 12) = s ->
  forall fuel year, carryMonths64 fuel year s = None.
Proof.
  intros Hgt Hr. induction fuel as [|fuel IH]; intros year; [reflexivity|].
  cbn [carryMonths64]. rewrite Hgt, Hr. apply IH.
Qed.

Lemma carryMonths64_stalls fuel year : carryMonths64 fuel year stallMonth = None.
Proof.
  apply carryMonths64_never_ends; [reflexivity|vm_compute; reflexivity].
Qed.

Lemma twelve_cases m :
  0 <= m <= 11 ->
  m = 0 \/ m = 1 \/ m = 2 \/ m = 3 \/ m = 4 \/ m = 5 \/ m = 6 \/ m = 7 \/
  m = 8 \/ m = 9 \/ m = 10 \/ m = 11.
Proof. lia. Qed.

Lemma stallMonth_absorbs m : 0 <= m <= 11 -> round64 (m + stallMonth) = stallMonth.
Proof.
  intros Hm. pose proof (twelve_cases m Hm) as Hc.
  repeat (destruct Hc as [->|Hc]; [vm_compute; reflexivity|]).
  subst m. vm_compute. reflexivity.
Qed.

Lemma stallThreshold_absorbs m :
  0 <= m <= 11 -> round64 (m + stallThreshold) = stallThreshold.
Proof.
  intros Hm. pose proof (twelve_cases m Hm) as Hc.
  repeat (destruct Hc as [->|Hc]; [vm_compute; reflexivity|]).
  subst m. vm_compute. reflexivity.
Qed.

Section Schedule64.

Variables (windowEndDate : Date) (f : Z) (carry : nat).
Hypothesis f_pos : 0 < f.
Hypothesis f_exact : f <= 2 ^ 53 - 11.
Hypothesis carry_enough : (11 + f) / 12 < Z.of_nat carry.
Hypothesis end_year : getFullYear windowEndDate <= 275760.

Lemma changeDatesLoop64_exact fuel : forall year month,
  0 <= month <= 11 -> -271821 <= year ->
  Z.max 0 (monthIndex windowEndDate - (12 * year + month) + 1) < Z.of_nat fuel ->
  changeDatesLoop64 carry fuel windowEndDate f year month =
  Some (changeDatesLoop fuel windowEndDate f year month).
Proof.
  change (2 ^ 53) with 9007199254740992 in f_exact.
  induction fuel as [|fuel IH]; intros year month Hm Hy Hfuel; [lia|].
  rewrite changeDatesLoop_step by assumption.
  cbn [changeDatesLoop64]. rewrite (newDate_index year month).
  destruct (Z.leb_spec (newDate 0 (12 * year + month) 1) windowEndDate) as [Hle|Hgt];
    [|reflexivity].
  apply firstOfMonth_le in Hle.
  pose proof (year_month_index windowEndDate) as Hi.
  pose proof (getMonth_bounds windowEndDate) as Hb.
  rewrite (round64_exact (month + f)) by (change (2 ^ 53) with 9007199254740992; lia).
  rewrite carryMonths64_spec;
    [|change (2 ^ 53) with 9007199254740992; lia
     |change (2 ^ 53) with 9007199254740992; lia
     |change (2 ^ 53) with 9007199254740992; lia
     |].
  2:{ eapply Z.le_lt_trans; [|exact carry_enough].
      apply Z.div_le_mono; lia. }
  assert (Hidx : 12 * (year + (month + f) / 12) + (month + f) mod 12 =
                 12 * year + month + f) by (Z.div_mod_to_equations; lia).
  assert (Hrg : 0 <= (month + f) mod 12 <= 11)
    by (pose proof (Z.mod_pos_bound (month + f) 12); lia).
  assert (Hq : 0 <= (month + f) / 12) by (apply Z.div_pos; lia).
  rewrite IH; [reflexivity|exact Hrg|lia|lia].
Qed.

End Schedule64.

Lemma generateRentChangeDates64_exact fuel wS wE f :
  0 < f <= 2 ^ 53 - 11 ->
  -271821 <= getFullYear wS <= 275760 -> getFullYear wE <= 275760 ->
  (11 + f) / 12 < Z.of_nat fuel ->
  Z.max 0 (monthIndex wE - monthIndex wS) + 1 < Z.of_nat fuel ->
  generateRentChangeDates64 fuel wS wE f = Some (generateRentChangeDates wS wE f).
Proof.
  intros [Hpos Hf] HyS HyE Hc Hfuel.
  unfold generateRentChangeDates64, generateRentChangeDates.
  destruct (Z.leb_spec f 0) as [|_]; [lia|].
  pose proof (getMonth_bounds wS) as Hm.
  pose proof (year_month_index wS) as Hi.
  assert (Hle : (getMonth wS + f) / 12 <= (11 + f) / 12) by (apply Z.div_le_mono; lia).
  change (2 ^ 53) with 9007199254740992 in Hf.
  rewrite (round64_exact (getMonth wS + f))
    by (change (2 ^ 53) with 9007199254740992; lia).
  rewrite carryMonths64_spec;
    [|change (2 ^ 53) with 9007199254740992; lia
     |change (2 ^ 53) with 9007199254740992; lia
     |change (2 ^ 53) with 9007199254740992; lia
     |lia].
  rewrite carryMonths_spec by lia.
  assert (Hidx : 12 * (getFullYear wS + (getMonth wS + f) / 12) +
                 (getMonth wS + f) mod 12 = monthIndex wS + f)
    by (Z.div_mod_to_equations; lia).
  assert (Hrg : 0 <= (getMonth wS + f) mod 12 <= 11)
    by (pose proof (Z.mod_pos_bound (getMonth wS + f) 12); lia).
  assert (Hq : 0 <= (getMonth wS + f) / 12) by (apply Z.div_pos; lia).
  rewrite (changeDatesLoop64_exact wE f fuel Hpos);
    [|change (2 ^ 53) with 9007199254740992; exact Hf|exact Hc|exact HyE
     |exact Hrg|lia|lia].
  f_equal. apply changeDatesLoop_fuel; [exact Hpos|exact Hrg| |].
  - lia.
  - unfold changeDatesFuel. lia.
Qed.

Lemma generateRentChangeDates64_stalls fuel wS wE :
  generateRentChangeDates64 fuel wS wE stallMonth = None.
Proof.
  unfold generateRentChangeDates64.
  assert (Hpos : (stallMonth <=? 0) = false) by reflexivity.
  rewrite Hpos, stallMonth_absorbs by apply getMonth_bounds.
  rewrite carryMonths64_stalls. reflexivity.
Qed.

(** The range is sharp: at 2^57 + 32 the schedule generator never returns. *)
Lemma generateRentChangeDates64_stalls_at_threshold fuel wS wE :
  generateRentChangeDates64 fuel wS wE stallThreshold = None.
Proof.
  unfold generateRentChangeDates64.
  assert (Hpos : (stallThreshold <=? 0) = false) by reflexivity.
  rewrite Hpos, stallThreshold_absorbs by apply getMonth_bounds.
  rewrite carryMonths64_never_ends; [reflexivity|reflexivity|vm_compute; reflexivity].
Qed.

Lemma log2_cases z :
  2 ^ 53 < z <= 2 ^ 57 + 11 ->
  (Z.log2 z = 53 /\ 2 ^ 53 <= z < 2 ^ 54) \/
  (Z.log2 z = 54 /\ 2 ^ 54 <= z < 2 ^ 55) \/
  (Z.log2 z = 55 /\ 2 ^ 55 <= z < 2 ^ 56) \/
  (Z.log2 z = 56 /\ 2 ^ 56 <= z < 2 ^ 57) \/
  (Z.log2 z = 57 /\ 2 ^ 57 <= z < 2 ^ 58).
Proof.
  intros Hz.
  assert (Hpos : 0 < z) by lia.
  pose proof (Z.log2_spec z Hpos) as Hs.
  assert (Hlo : 53 <= Z.log2 z) by (apply Z.log2_le_pow2; lia).
  assert (Hhi : Z.log2 z < 58) by (apply Z.log2_lt_pow2; lia).
  assert (Hc : Z.log2 z = 53 \/ Z.log2 z = 54 \/ Z.log2 z = 55 \/ Z.log2 z = 56 \/
               Z.log2 z = 57) by lia.
  destruct Hc as [E|[E|[E|[E|E]]]]; rewrite E in Hs;
    [left|right; left|right; right; left|right; right; right; left|
     right; right; right; right];
    (split; [exact E|exact Hs]).
Qed.

(** The binary64 value of an integer between 2^53 and 2^57 + 11 is within
    8 of it below 2^57, and is 2^57 from there on. *)
Lemma round64_near z :
  2 ^ 53 < z <= 2 ^ 57 + 11 ->
  z - 11 <= round64 z <= 2 ^ 57 /\ (z < 2 ^ 57 -> z - 8 <= round64 z <= z + 8).
Proof.
  intros Hz. unfold round64.
  assert (Hpos : 0 < z) by lia.
  rewrite (Z.abs_eq z) by lia. rewrite (Z.sgn_pos z) by lia.
  destruct (Z.leb_spec z (2 ^ 53)) as [|_]; [lia|].
  destruct (log2_cases z Hz) as [[E Hr]|[[E Hr]|[[E Hr]|[[E Hr]|[E Hr]]]]]; rewrite E.
  - change (2 ^ (53 - 52)) with 2.
    change (2 ^ 53) with 9007199254740992 in *. change (2 ^ 54) with 18014398509481984 in *.
    change (2 ^ 57) with 144115188075855872 in *.
    destruct (Z.ltb_spec (2 * (z mod 2)) 2), (Z.gtb_spec (2 * (z mod 2)) 2),
      (Z.even (z / 2)); Z.div_mod_to_equations; lia.
  - change (2 ^ (54 - 52)) with 4.
    change (2 ^ 54) with 18014398509481984 in *. change (2 ^ 55) with 36028797018963968 in *.
    change (2 ^ 57) with 144115188075855872 in *.
    destruct (Z.ltb_spec (2 * (z mod 4)) 4), (Z.gtb_spec (2 * (z mod 4)) 4),
      (Z.even (z / 4)); Z.div_mod_to_equations; lia.
  - change (2 ^ (55 - 52)) with 8.
    change (2 ^ 55) with 36028797018963968 in *. change (2 ^ 56) with 72057594037927936 in *.
    change (2 ^ 57) with 144115188075855872 in *.
    destruct (Z.ltb_spec (2 * (z mod 8)) 8), (Z.gtb_spec (2 * (z mod 8)) 8),
      (Z.even (z / 8)); Z.div_mod_to_equations; lia.
  - change (2 ^ (56 - 52)) with 16.
    change (2 ^ 56) with 72057594037927936 in *.
    change (2 ^ 57) with 144115188075855872 in *.
    destruct (Z.ltb_spec (2 * (z mod 16)) 16), (Z.gtb_spec (2 * (z mod 16)) 16),
      (Z.even (z / 16)); Z.div_mod_to_equations; lia.
  - change (2 ^ (57 - 52)) with 32.
    change (2 ^ 58) with 288230376151711744 in *.
    change (2 ^ 57) with 144115188075855872 in *.
    destruct (Z.ltb_spec (2 * (z mod 32)) 32), (Z.gtb_spec (2 * (z mod 32)) 32),
      (Z.even (z / 32)); Z.div_mod_to_equations; lia.
Qed.

Lemma round64_month_step m :
  12 <= m <= 2 ^ 57 -> m - 20 <= round64 (m - 12) <= m - 4 /\ 0 <= round64 (m - 12).
Proof.
  intros Hm. destruct (Z_le_gt_dec (m - 12) (2 ^ 53)) as [He|Hg].
  - rewrite round64_exact by (change (2 ^ 53) with 9007199254740992 in *; lia). lia.
  - destruct (round64_near (m - 12)) as [Hb Hu];
      [change (2 ^ 53) with 9007199254740992 in *;
       change (2 ^ 57) with 144115188075855872 in *; lia|].
    change (2 ^ 53) with 9007199254740992 in *.
    change (2 ^ 57) with 144115188075855872 in *. lia.
Qed.

Lemma round64_year_step y :
  - 2 ^ 53 <= y <= 2 ^ 53 -> round64 (y + 1) = Z.min (y + 1) (2 ^ 53).
Proof.
  intros Hy. destruct (Z.eq_dec y (2 ^ 53)) as [->|Hne].
  - vm_compute. reflexivity.
  - change (2 ^ 53) with 9007199254740992 in *.
    rewrite round64_exact by (change (2 ^ 53) with 9007199254740992; lia). lia.
Qed.

(** From a month counter of at most 2^57 the binary64 carry loop ends, on a
    month in 0..11 and a year that has advanced once for every 20 months at
    most, or has reached 2^53. *)
Lemma carryMonths64_ends fuel : forall year month,
  - 2 ^ 53 <= year <= 2 ^ 53 -> 0 <= month <= 2 ^ 57 ->
  month / 4 < Z.of_nat fuel ->
  exists year' month',
    carryMonths64 fuel year month = Some (year', month') /\
    0 <= month' <= 11 /\ year <= year' <= 2 ^ 53 /\
    (year' = 2 ^ 53 \/ month <= 11 + 20 * (year' - year)).
Proof.
  induction fuel as [|fuel IH]; intros year month Hy Hm Hf.
  - assert (0 <= month / 4) by (apply Z.div_pos; lia). lia.
  - cbn [carryMonths64]. destruct (Z.gtb_spec month 11) as [Hgt|Hle].
    + destruct (round64_month_step month) as [[Hlo Hhi] H0]; [lia|].
      rewrite round64_year_step by exact Hy.
      change (2 ^ 53) with 9007199254740992 in *.
      change (2 ^ 57) with 144115188075855872 in *.
      destruct (IH (Z.min (year + 1) (2 ^ 53)) (round64 (month - 12)))
        as (y' & m' & Hc & Hm' & Hy' & Hk); [lia|lia| |].
      { assert (round64 (month - 12) / 4 <= (month - 4) / 4)
          by (apply Z.div_le_mono; lia).
        assert ((month - 4) / 4 = month / 4 - 1) by (Z.div_mod_to_equations; lia).
        lia. }
      exists y', m'. split; [exact Hc|]. split; [exact Hm'|]. split; [lia|].
      destruct Hk as [Hk|Hk]; [left; exact Hk|].
      destruct (Z.eq_dec year (2 ^ 53)) as [E|E]; [left; lia|right; lia].
    + exists year, month. split; [reflexivity|]. split; [lia|]. split; [lia|]. right. lia.
Qed.

Lemma generateRentChangeDates_far wS wE f :
  2 ^ 53 - 11 < f ->
  -271821 <= getFullYear wS -> getFullYear wE <= 275760 ->
  generateRentChangeDates wS wE f = [].
Proof.
  intros Hf HyS HyE.
  destruct (generateRentChangeDates wS wE f) as [|d l] eqn:E; [reflexivity|exfalso].
  assert (Hin : In d (generateRentChangeDates wS wE f)) by (rewrite E; left; reflexivity).
  apply generateRentChangeDates_In in Hin; [|lia].
  destruct Hin as (k & Hk & Hd & Hle). rewrite changeDateAt_index in Hd. subst d.
  apply firstOfMonth_le in Hle.
  pose proof (year_month_index wS). pose proof (year_month_index wE).
  pose proof (getMonth_bounds wS). pose proof (getMonth_bounds wE).
  change (2 ^ 53) with 9007199254740992 in *. nia.
Qed.

Lemma generateRentChangeDates64_far fuel wS wE f :
  2 ^ 53 - 11 < f <= 2 ^ 57 ->
  -271821 <= getFullYear wS <= 275760 -> getFullYear wE <= 275760 ->
  f / 4 + 8 < Z.of_nat fuel ->
  generateRentChangeDates64 fuel wS wE f = Some [].
Proof.
  intros Hf HyS HyE Hfuel. unfold generateRentChangeDates64.
  pose proof (getMonth_bounds wS) as Hm.
  change (2 ^ 53) with 9007199254740992 in *.
  change (2 ^ 57) with 144115188075855872 in *.
  destruct (Z.leb_spec f 0) as [|_]; [lia|].
  assert (HM : getMonth wS + f - 11 <= round64 (getMonth wS + f) <= 144115188075855872 /\
               round64 (getMonth wS + f) <= f + 19).
  { destruct (Z_le_gt_dec (getMonth wS + f) 9007199254740992) as [He|Hg].
    - rewrite round64_exact by (change (2 ^ 53) with 9007199254740992; lia). lia.
    - destruct (round64_near (getMonth wS + f)) as [Hb Hu];
        [change (2 ^ 53) with 9007199254740992;
         change (2 ^ 57) with 144115188075855872; lia|].
      change (2 ^ 57) with 144115188075855872 in *.
      destruct (Z_lt_le_dec (getMonth wS + f) 144115188075855872) as [Hlt|Hge];
        [specialize (Hu Hlt)|]; lia. }
  destruct HM as [[HMlo HMhi] HMf].
  destruct (carryMonths64_ends fuel (getFullYear wS) (round64 (getMonth wS + f)))
    as (y' & m' & Hc & Hm' & Hy' & Hk).
  { change (2 ^ 53) with 9007199254740992. lia. }
  { change (2 ^ 57) with 144115188075855872. lia. }
  { assert (round64 (getMonth wS + f) / 4 <= (f + 19) / 4) by (apply Z.div_le_mono; lia).
    assert ((f + 19) / 4 <= f / 4 + 5) by (Z.div_mod_to_equations; lia). lia. }
  rewrite Hc. change (2 ^ 53) with 9007199254740992 in *.
  assert (Hfar : 275760 < y') by (destruct Hk; lia).
  destruct fuel as [|fuel]; [assert (0 <= f / 4) by (apply Z.div_pos; lia); lia|].
  cbn [changeDatesLoop64]. rewrite (newDate_index y' m').
  destruct (Z.leb_spec (newDate 0 (12 * y' + m') 1) wE) as [Hle|Hgt]; [|reflexivity].
  exfalso. apply firstOfMonth_le in Hle.
  pose proof (year_month_index wE). pose proof (getMonth_bounds wE). lia.
Qed.

Lemma generateRentChangeDates64_returns fuel wS wE f :
  f <= 2 ^ 57 ->
  -271821 <= getFullYear wS <= 275760 -> getFullYear wE <= 275760 ->
  (scheduleFuel wS wE f <= fuel)%nat ->
  generateRentChangeDates64 fuel wS wE f = Some (generateRentChangeDates wS wE f).
Proof.
  intros Hf HyS HyE Hfuel.
  destruct (Z_le_gt_dec f (2 ^ 53 - 11)) as [He|Hg].
  - destruct (Z_le_gt_dec f 0) as [H0|H0].
    + unfold generateRentChangeDates64, generateRentChangeDates.
      destruct (Z.leb_spec f 0); [reflexivity|lia].
    + assert ((11 + f) / 12 <= f / 4 + 1) by (Z.div_mod_to_equations; lia).
      apply generateRentChangeDates64_exact; [lia|exact HyS|exact HyE| |];
        unfold scheduleFuel in Hfuel; lia.
  - rewrite generateRentChangeDates_far by lia.
    apply generateRentChangeDates64_far; [lia|exact HyS|exact HyE|].
    unfold scheduleFuel in Hfuel. lia.
Qed.

End Counters64Facts.

Import Counters64Facts.

Section Computation64.

Context {num : Type} `{JSNumber num}.

Lemma calculateMonthlyRent64_exact fuel base lease wS wE dueDay f (rate : num) :
  (wS <= wE ->
   generateRentChangeDates64 fuel wS wE f = Some (generateRentChangeDates wS wE f)) ->
  calculateMonthlyRent64 fuel base lease wS wE dueDay f rate =
  Some (calculateMonthlyRent base lease wS wE dueDay f rate).
Proof.
  intros Hgen. unfold calculateMonthlyRent64, calculateMonthlyRent.
  destruct (Z.gtb_spec wS wE) as [Hgt|Hle]; [reflexivity|].
  rewrite (Hgen Hle).
  destruct (lease >? wE); [reflexivity|].
  destruct (firstPayment _ lease (getDate lease) dueDay) as [amount second].
  destruct (rentLoop _ _ _ _ _ _ _ _). reflexivity.
Qed.

Lemma calculateMonthlyRent64_stalls fuel base lease wS wE dueDay (rate : num) :
  wS <= wE ->
  calculateMonthlyRent64 fuel base lease wS wE dueDay stallMonth rate = None.
Proof.
  intros Hle. unfold calculateMonthlyRent64.
  destruct (Z.gtb_spec wS wE) as [Hgt|_]; [lia|].
  rewrite generateRentChangeDates64_stalls. reflexivity.
Qed.

(** C9 (amended). For window dates in the years a [Date] can hold and a
    frequency of at most 2^57: the recurring loop makes at most 500 turns,
    ending by its window test or when the counter reaches 500; both loops of
    the schedule generator end on their binary64 counters, so that the
    function returns, and returns what the integer model computes, with at
    most 501 records. *)
Theorem C9_bounded_loop_and_return_up_to_2_57
    (baseMonthlyRent : num) (leaseStartDate windowStartDate windowEndDate : Date)
    (dayOfMonthRentDue rentRateChangeFrequency : Z) (rentChangeRate : num) :
  rentRateChangeFrequency <= 2 ^ 57 ->
  -271821 <= getFullYear windowStartDate ->
  getFullYear windowEndDate <= 275760 ->
  let final :=
    rentLoop leaseStartDate windowStartDate windowEndDate dayOfMonthRentDue
      rentChangeRate
      (generateRentChangeDates windowStartDate windowEndDate rentRateChangeFrequency)
      500
      (startState baseMonthlyRent leaseStartDate windowStartDate windowEndDate
         dayOfMonthRentDue rentRateChangeFrequency rentChangeRate) in
  0 <= iterationSafety final <= 500 /\
  (currentDueDate final > windowEndDate \/ iterationSafety final = 500) /\
  (exists fuel, forall fuel',
     (fuel <= fuel')%nat ->
     calculateMonthlyRent64 fuel' baseMonthlyRent leaseStartDate windowStartDate
       windowEndDate dayOfMonthRentDue rentRateChangeFrequency rentChangeRate =
     Some (calculateMonthlyRent baseMonthlyRent leaseStartDate windowStartDate
             windowEndDate dayOfMonthRentDue rentRateChangeFrequency rentChangeRate)) /\
  (length
     (calculateMonthlyRent baseMonthlyRent leaseStartDate windowStartDate
        windowEndDate dayOfMonthRentDue rentRateChangeFrequency rentChangeRate)
   <= 501)%nat.
Proof.
  intros Hf HyS HyE final.
  pose proof (rentLoop_exit leaseStartDate windowStartDate windowEndDate
                dayOfMonthRentDue rentChangeRate
                (generateRentChangeDates windowStartDate windowEndDate
                   rentRateChangeFrequency) 500
                (startState baseMonthlyRent leaseStartDate windowStartDate
                   windowEndDate dayOfMonthRentDue rentRateChangeFrequency
                   rentChangeRate)) as Hex.
  cbv zeta in Hex. fold final in Hex. destruct Hex as [Hle Hex].
  assert (H0 : 0 <= iterationSafety final).
  { subst final. apply rentLoop_invariant.
    - intros st Hst _. cbn [loopBody iterationSafety]. lia.
    - cbn [startState iterationSafety]. lia. }
  change (iterationSafety (startState baseMonthlyRent leaseStartDate windowStartDate
            windowEndDate dayOfMonthRentDue rentRateChangeFrequency rentChangeRate))
    with 0 in Hle, Hex.
  split; [lia|]. split; [lia|]. split.
  - exists (scheduleFuel windowStartDate windowEndDate rentRateChangeFrequency).
    intros fuel' Hfuel. apply calculateMonthlyRent64_exact. intros Hw.
    apply generateRentChangeDates64_returns; [exact Hf| |exact HyE|exact Hfuel].
    split; [exact HyS|].
    pose proof (monthIndex_le windowStartDate windowEndDate Hw) as Hmi.
    pose proof (year_month_index windowStartDate).
    pose proof (year_month_index windowEndDate).
    pose proof (getMonth_bounds windowStartDate).
    pose proof (getMonth_bounds windowEndDate). lia.
  - destruct (Z_gt_le_dec windowStartDate windowEndDate) as [Hw|Hw];
      [rewrite calculateMonthlyRent_guards by tauto; cbn [length]; lia|].
    destruct (Z_gt_le_dec leaseStartDate windowEndDate) as [Hl|Hl];
      [rewrite calculateMonthlyRent_guards by tauto; cbn [length]; lia|].
    rewrite calculateMonthlyRent_run by assumption.
    pose proof (rentLoop_length leaseStartDate windowStartDate windowEndDate
                  dayOfMonthRentDue rentChangeRate
                  (generateRentChangeDates windowStartDate windowEndDate
                     rentRateChangeFrequency) 500
                  (startState baseMonthlyRent leaseStartDate windowStartDate
                     windowEndDate dayOfMonthRentDue rentRateChangeFrequency
                     rentChangeRate)) as Hlen.
    assert (Hs : (length (results (startState baseMonthlyRent leaseStartDate
                    windowStartDate windowEndDate dayOfMonthRentDue
                    rentRateChangeFrequency rentChangeRate)) <= 1)%nat).
    { cbn [startState results].
      destruct ((windowStartDate <=? leaseStartDate) && (leaseStartDate <=? windowEndDate));
        cbn [length]; lia. }
    lia.
Qed.

End Computation64.

(** C9 (as stated) fails at a frequency of 2^60: in binary64
    [2^60 - 12 = 2^60], the loop [while (month > 11) { month -= 12; year++; }]
    makes no progress, and the function returns after no number of turns. *)
Theorem C9_frequency_2_60_never_returns :
  PrimFloat.sub 1152921504606846976%float 12%float = 1152921504606846976%float /\
  PrimFloat.ltb 11%float 1152921504606846976%float = true /\
  round64 (1152921504606846976 - 12) = 1152921504606846976 /\
  forall fuel : nat,
    calculateMonthlyRent64 fuel (Q2Qc 100) (ymd 2023 1 1) (ymd 2023 1 1)
      (ymd 2023 3 31) 1 1152921504606846976 (Q2Qc 0) = None.
Proof.
  split; [vm_compute; reflexivity|]. split; [vm_compute; reflexivity|].
  split; [vm_compute; reflexivity|].
  intros fuel. apply (calculateMonthlyRent64_stalls fuel).
  vm_compute. discriminate.
Qed.

(** [round64] against binary64 subtraction and addition, at the ends of the
    ranges of each unit in the last place and on ties. *)
Example round64_matches_binary64 :
  forallb
    (fun a =>
       PrimFloat.eqb (PrimFloat.sub (Float64.ofZ a) 12%float)
         (Float64.ofZ (round64 (a - 12))) &&
       PrimFloat.eqb (PrimFloat.add (Float64.ofZ a) 1%float)
         (Float64.ofZ (round64 (a + 1))) &&
       PrimFloat.eqb (PrimFloat.add (Float64.ofZ a) 11%float)
         (Float64.ofZ (round64 (a + 11))))
    [100; 2 ^ 53 - 2; 2 ^ 53; 2 ^ 53 + 2; 2 ^ 53 + 4; 2 ^ 53 + 12; 2 ^ 54;
     2 ^ 54 + 4; 2 ^ 55; 2 ^ 55 + 8; 2 ^ 55 + 16; 2 ^ 56; 2 ^ 56 + 16;
     2 ^ 57 - 16; 2 ^ 57; 2 ^ 57 + 32; 2 ^ 58; 2 ^ 60; 2 ^ 62] = true.
Proof. vm_compute. reflexivity. Qed.

(** The stall starts at 2^57 + 32: from 2^57 the counter still moves. *)
Example stall_threshold :
  stallMonth = 2 ^ 60 /\ stallThreshold = 2 ^ 57 + 32 /\
  round64 (2 ^ 57 - 12) = 2 ^ 57 - 16 /\
  round64 (stallThreshold - 12) = stallThreshold /\
  PrimFloat.eqb
    (PrimFloat.sub (Float64.ofZ stallThreshold) 12%float)
    (Float64.ofZ stallThreshold) = true.
Proof. vm_compute. repeat split; reflexivity. Qed.

(** [Math.round] on binary64: halves go up, a zero result keeps the sign. *)
Example math_round_binary64 :
  (Float64.round 2.5%float, Float64.round (-2.5)%float,
   Float64.round (-1.5)%float, Float64.round 0.49999999999999994%float) =
  (3%float, (-2)%float, (-1)%float, 0%float) /\
  PrimFloat.get_sign (Float64.round (-0.2)%float) = true /\
  PrimFloat.get_sign (Float64.round (-0.5)%float) = true /\
  PrimFloat.get_sign (Float64.round 0.2%float) = false.
Proof. vm_compute. repeat split; reflexivity. Qed.

Lemma C9_bounded_loop_and_return_up_to_2_57_witness :
  1 <= 2 ^ 57 /\
  -271821 <= getFullYear (ymd 2023 1 1) /\
  getFullYear (ymd 2023 3 31) <= 275760 /\
  exists fuel, forall fuel',
    (fuel <= fuel')%nat ->
    calculateMonthlyRent64 fuel' (Q2Qc 100) (ymd 2023 1 1) (ymd 2023 1 1)
      (ymd 2023 3 31) 1 1 (Q2Qc (1 # 10)) =
    Some (calculateMonthlyRent (Q2Qc 100) (ymd 2023 1 1) (ymd 2023 1 1)
            (ymd 2023 3 31) 1 1 (Q2Qc (1 # 10))).
Proof.
  assert (Hf : 1 <= 2 ^ 57) by (vm_compute; discriminate).
  assert (HyS : -271821 <= getFullYear (ymd 2023 1 1)) by (vm_compute; discriminate).
  assert (HyE : getFullYear (ymd 2023 3 31) <= 275760) by (vm_compute; discriminate).
  split; [exact Hf|]. split; [exact HyS|]. split; [exact HyE|].
  pose proof (C9_bounded_loop_and_return_up_to_2_57 (Q2Qc 100) (ymd 2023 1 1)
                (ymd 2023 1 1) (ymd 2023 3 31) 1 1 (Q2Qc (1 # 10)) Hf HyS HyE) as Hx.
  cbv zeta in Hx. exact (proj1 (proj2 (proj2 Hx))).
Defined.
